(** * Lumino video backend: the generation pipeline

    A shallow embedding of the orchestration core of the Express server
    (the [/api/generate-video] handler and the helpers it calls) and of the
    credit middleware in [middleware/limits.js], followed by the properties
    the specification states about them.  Further modules embed the routes
    around it: the stored-video, template, AI and asset-upload routes of the
    server, the per-user rate limiter and [verifyToken] of the auth
    middleware, and the payment and pricing routes that fill the balance.

    Conventions.
    - JavaScript numbers that hold counters and credits are integers far
      below 2^53, they are modelled as [nat] (key usage, attempts) or [Z]
      (credits, pixel sizes).
    - A JavaScript object used as a dictionary is a [gmap] with string keys.
    - Every call that leaves the process (Firestore, the provider API,
      ffmpeg, the file host) takes its answer from an [Env] record, so a
      property quantified over [Env] holds for every behaviour of the
      outside world. *)

From Stdlib Require Import ZArith Lia Ascii String.
From stdpp Require Import gmap strings list fin_maps.

Open Scope string_scope.
Open Scope nat_scope.

(** ** Credential pool *)

Module CredentialPool.

(** [keyUsageCount] is a plain object, [let keyUsageCount = {}], and only
    assignments [keyUsageCount[key] = n] write to it: the map holds the
    entries of its own.  A lookup under a name without an entry goes to
    [Object.prototype]. *)

(** The names that every object inherits from [Object.prototype].  Looked
    up in an object that has no entry of its own under the name, they give
    a function (for [__proto__], the prototype object) and not
    [undefined]. *)
Definition inherited (name : string) : bool :=
  existsb (String.eqb name)
    ["constructor"; "__proto__"; "hasOwnProperty"; "isPrototypeOf";
     "propertyIsEnumerable"; "toLocaleString"; "toString"; "valueOf";
     "__defineGetter__"; "__defineSetter__"; "__lookupGetter__";
     "__lookupSetter__"].

(** [(keyUsageCount[key] || 0)] where the lookup is a number or
    [undefined]: an entry of the object's own is its count, a key that was
    never used, or whose entry was dropped by a reset, reads as 0.  The
    remaining case, an [inherited] name without an entry, is dealt with
    by [below_quota]. *)
Definition usage (keyUsageCount : gmap string nat) (key : string) : nat :=
  default 0 (keyUsageCount !! key).

(** The literal 10 of [getNextHeyGenKey]. *)
Definition KEY_QUOTA : nat := 10.

(** [(keyUsageCount[key] || 0) < 10].  For an [inherited] name without an
    entry the left side is a function or an object; compared with a number
    it converts to [NaN] and the test is false. *)
Definition below_quota (keyUsageCount : gmap string nat) (key : string) : bool :=
  match keyUsageCount !! key with
  | Some n => n <? KEY_QUOTA
  | None => negb (inherited key)
  end.

(** The [for] loop of [getNextHeyGenKey]: the first key, in pool order,
    that passes the test is charged one use and returned.  The increment
    is evaluated only where the test held, so its lookup is a number or
    [undefined]. *)
Fixpoint scan_keys (keys : list string) (keyUsageCount : gmap string nat)
  : option (string * gmap string nat) :=
  match keys with
  | [] => None
  | key :: rest =>
      if below_quota keyUsageCount key
      then Some (key, <[key := usage keyUsageCount key + 1]> keyUsageCount)
      else scan_keys rest keyUsageCount
  end.

(** [HEYGEN_KEYS[0]] used as a property name: [undefined] becomes the
    string "undefined" when the pool is empty. *)
Definition first_key_property (HEYGEN_KEYS : list string) : string :=
  match HEYGEN_KEYS with
  | [] => "undefined"
  | key :: _ => key
  end.

(** [keyUsageCount = {}; keyUsageCount[HEYGEN_KEYS[0]] = 1].  The
    assignment makes an entry under every name but [__proto__]: there it
    calls the setter that every object inherits, which ignores a
    number. *)
Definition reset_counters (HEYGEN_KEYS : list string) : gmap string nat :=
  if String.eqb (first_key_property HEYGEN_KEYS) "__proto__" then ∅
  else {[ first_key_property HEYGEN_KEYS := 1 ]}.

(** [getNextHeyGenKey()].  The result is [None] when the function returns
    [undefined], which happens only on an empty pool. *)
Definition getNextHeyGenKey (HEYGEN_KEYS : list string)
    (keyUsageCount : gmap string nat) : option string * gmap string nat :=
  match scan_keys HEYGEN_KEYS keyUsageCount with
  | Some (key, keyUsageCount') => (Some key, keyUsageCount')
  | None => (head HEYGEN_KEYS, reset_counters HEYGEN_KEYS)
  end.

(** The usage map after [n] sequential calls. *)
Fixpoint after_calls (HEYGEN_KEYS : list string) (n : nat)
    (keyUsageCount : gmap string nat) : gmap string nat :=
  match n with
  | 0 => keyUsageCount
  | S n' =>
      (getNextHeyGenKey HEYGEN_KEYS
         (after_calls HEYGEN_KEYS n' keyUsageCount)).2
  end.

(** The key returned by call number [n + 1]. *)
Definition nth_call (HEYGEN_KEYS : list string) (n : nat)
    (keyUsageCount : gmap string nat) : option string :=
  (getNextHeyGenKey HEYGEN_KEYS (after_calls HEYGEN_KEYS n keyUsageCount)).1.

End CredentialPool.

(** ** Ledger: [middleware/limits.js] *)

Module Ledger.

Local Open Scope Z_scope.

(** Credit System (20 credits = 1 video). *)
Definition CREDITS_PER_VIDEO : Z := 20.
Definition CREDITS_PER_SCRIPT : Z := 0.

(** [req.user], the decoded token. *)
Record User := { uid : string; email : string }.

(** The fields of a document of the [users] collection that the ledger
    reads or writes.  A field that the document does not have is [None]:
    the document created at first login has no [credits] field. *)
Record UserDoc := {
  credits : option Z;
  creditsUsed : option Z;
  videosGenerated : option Z;
  scriptsGenerated : option Z;
  lastVideoGenerated : option Z;
  lastScriptGenerated : option Z
}.

(** [field || 0] on a numeric field. *)
Definition or_zero (field : option Z) : Z :=
  match field with
  | Some n => n
  | None => 0
  end.

(** [FieldValue.increment(d)]: a missing field counts as 0. *)
Definition increment (d : Z) (field : option Z) : option Z :=
  Some (or_zero field + d).

Record PurchaseOption := {
  price : Z;
  offered_credits : Z;
  offer_message : string
}.

Record UpgradeOptions := {
  buyCredits : PurchaseOption;
  basicPlan : PurchaseOption
}.

Definition upgradeOptions : UpgradeOptions := {|
  buyCredits := {| price := 80; offered_credits := 20;
                   offer_message := "Buy 20 credits for ₹80 (1 video)" |};
  basicPlan := {| price := 899; offered_credits := 400;
                  offer_message :=
                    "Basic Plan: 400 credits for ₹899 = 20 videos (Save ₹701!)" |}
|}.

(** [req.credits], attached for the next handler. *)
Record CreditsInfo := { available : Z; required : Z; remaining : Z }.

(** What the middleware does with the request: answer it, or call
    [next()]. *)
Inductive LimitsResult :=
| AuthenticationRequired                         (* 401 *)
| InsufficientCredits (currentCredits creditsNeeded : Z)
                      (options : UpgradeOptions) (* 403 *)
| FailedToCheckCredits                           (* 500 *)
| Next (req_credits : CreditsInfo).

(** [userData?.credits || 0] *)
Definition userCredits (users : gmap string UserDoc) (uid : string) : Z :=
  or_zero (users !! uid ≫= credits).

(** [checkVideoLimits].  [get_throws] says whether the Firestore read
    rejects, which the [catch] turns into a 500. *)
Definition checkVideoLimits (users : gmap string UserDoc) (get_throws : bool)
    (req_user : option User) : LimitsResult :=
  match req_user with
  | None => AuthenticationRequired
  | Some user =>
      if get_throws then FailedToCheckCredits
      else
        let userCredits := userCredits users (uid user) in
        if userCredits <? CREDITS_PER_VIDEO
        then InsufficientCredits userCredits CREDITS_PER_VIDEO upgradeOptions
        else Next {| available := userCredits;
                     required := CREDITS_PER_VIDEO;
                     remaining := userCredits - CREDITS_PER_VIDEO |}
  end.

(** The [update] of the ['video'] branch, applied to one document. *)
Definition video_update (serverTimestamp : Z) (d : UserDoc) : UserDoc := {|
  credits := increment (- CREDITS_PER_VIDEO) (credits d);
  creditsUsed := increment CREDITS_PER_VIDEO (creditsUsed d);
  videosGenerated := increment 1 (videosGenerated d);
  scriptsGenerated := scriptsGenerated d;
  lastVideoGenerated := Some serverTimestamp;
  lastScriptGenerated := lastScriptGenerated d
|}.

(** The [update] of the ['script'] branch. *)
Definition script_update (serverTimestamp : Z) (d : UserDoc) : UserDoc := {|
  credits := credits d;
  creditsUsed := creditsUsed d;
  videosGenerated := videosGenerated d;
  scriptsGenerated := increment 1 (scriptsGenerated d);
  lastVideoGenerated := lastVideoGenerated d;
  lastScriptGenerated := Some serverTimestamp
|}.

(** [userRef.update(...)]: rejects when the document does not exist or
    when the store is unreachable ([update_throws]); otherwise the fields
    are written in one atomic step. *)
Definition firestore_update (users : gmap string UserDoc) (update_throws : bool)
    (userId : string) (f : UserDoc → UserDoc) : option (gmap string UserDoc) :=
  match users !! userId with
  | Some d => if update_throws then None else Some (<[userId := f d]> users)
  | None => None
  end.

(** [updateUsage(userId, type)].  A rejected update is caught and logged,
    the function itself never throws. *)
Definition updateUsage (users : gmap string UserDoc) (update_throws : bool)
    (serverTimestamp : Z) (userId type : string) : gmap string UserDoc :=
  if String.eqb type "video" then
    default users
      (firestore_update users update_throws userId (video_update serverTimestamp))
  else if String.eqb type "script" then
    default users
      (firestore_update users update_throws userId (script_update serverTimestamp))
  else users.

End Ledger.

(** ** Post-processing: the crop that [removeWatermark] asks ffmpeg for *)

Module Watermark.

Local Open Scope Z_scope.

(** The argument of [.videoFilter(...)] in [removeWatermark]. *)
Definition watermark_filter : string := "crop=iw-150:ih-80:0:0".

(** The part of ffmpeg's expression language that the filter uses: sums
    and differences of the input width, the input height and integer
    constants. *)
Inductive Operand :=
| In_w
| In_h
| Const (n : Z).

Inductive Expr :=
| Leaf (o : Operand)
| Minus (e : Expr) (o : Operand)
| Plus (e : Expr) (o : Operand).



(** Fields of [s] between occurrences of [sep]. *)
Fixpoint split_at (sep : ascii) (s : string) : list string :=
  match s with
  | EmptyString => [EmptyString]
  | String c s' =>
      if Ascii.eqb c sep then EmptyString :: split_at sep s'
      else match split_at sep s' with
           | [] => [String c EmptyString]
           | field :: fields => String c field :: fields
           end
  end.







Definition eval_operand (iw ih : Z) (o : Operand) : Z :=
  match o with
  | In_w => iw
  | In_h => ih
  | Const n => n
  end.

Fixpoint eval (iw ih : Z) (e : Expr) : Z :=
  match e with
  | Leaf o => eval_operand iw ih o
  | Minus e o => eval iw ih e - eval_operand iw ih o
  | Plus e o => eval iw ih e + eval_operand iw ih o
  end.



Section Frames.

Context {Pixel : Type}.








End Frames.

End Watermark.

(** ** The generation pipeline: [POST /api/generate-video] *)

Module Pipeline.

Import CredentialPool Ledger Watermark.

(** *** Data *)

Record Dimensions := { width : Z; height : Z }.

(** [req.body].  A property that the client did not send is [None]. *)
Record Body := {
  script : option string;
  avatar : option string;
  voice : option string;
  orientation : option string;
  customDimensions : option Dimensions;
  templateId : option string;
  customAssets : option (list string)
}.

Record Request := { req_user : option User; req_body : Body }.

(** A thrown JavaScript error; [error_response] is the [response] property
    that axios puts on an error raised for an HTTP answer. *)
Record JsError := {
  error_message : string;
  error_response : option (nat * string)
}.

Definition Error (message : string) : JsError :=
  {| error_message := message; error_response := None |}.

(** [videoData], built by the handler at step 7. *)
Record VideoData := {
  userId : string;
  userEmail : string;
  originalUrl : string;
  processedUrl : string;
  video_script : string;
  video_avatar : string;
  video_voice : string;
  video_orientation : string;
  dimensions : Dimensions;
  duration : string;
  storage : string;
  video_type : string;
  video_templateId : option string;
  video_customAssets : list string;
  aiGenerated : bool
}.

(** The document written to the [videos] collection. *)
Record VideoRecord := {
  videoData : VideoData;
  createdAt : Z;
  video_status : string
}.

(** The JSON bodies the route answers with. *)
Inductive ResponseBody :=
| ErrorBody (error : string)
| ErrorMessageBody (error message : string)
| ErrorDetailsBody (error details : string)
| InsufficientCreditsBody (currentCredits creditsNeeded : Z)
                          (options : UpgradeOptions)
| SuccessBody (videoId videoUrl : string).

Record Response := { status : nat; body : ResponseBody }.

(** Calls the handler makes to its collaborators.  Reads of the user
    document are not recorded. *)
Inductive Effect :=
| HeyGenGenerate (apiKey : string) (dimension : Dimensions)
                 (avatar_id input_text voice_id : string)
| Sleep (ms : Z)
| HeyGenStatus (apiKey video_id : string)
| Download (url : string)
| Ffmpeg (inputPath filter outputPath : string)
| CatboxUpload (videoPath : string)
| VideosSet (record : VideoRecord)
| UpdateUsage (userId type : string)
| RemoveSync (path : string).

(** *** The outside world *)

Inductive SubmitOutcome :=
| SubmitOk (video_id : string)
| SubmitThrows (e : JsError).

(** The answer to one status query: [statusResponse.data.data] with its
    [status] and [video_url], or a rejected request. *)
Inductive PollOutcome :=
| PollOk (status : string) (video_url : option string)
| PollThrows (e : JsError).

Inductive DownloadOutcome :=
| DownloadOk
| DownloadGetThrows (e : JsError)
| DownloadWriteThrows (e : JsError) (file_created : bool).

Inductive CropOutcome :=
| CropEnd
| CropError (e : JsError) (output_created : bool).

Inductive UploadOutcome :=
| UploadOk (data : string)
| UploadThrows (e : JsError).

Inductive StoreOutcome :=
| StoreOk (docId : string)
| StoreThrows (e : JsError).

(** Configuration and the answers of every external service during one
    request.  [status_get n] answers the status query made when [attempts]
    is [n]. *)
Record Env := {
  HEYGEN_KEYS : list string;
  outputDir : string;
  users_get_throws : bool;
  submit : SubmitOutcome;
  status_get : nat → PollOutcome;
  download : DownloadOutcome;
  uuid_temp : string;
  uuid_clean : string;
  ffmpeg : CropOutcome;
  catbox : UploadOutcome;
  videos_set : StoreOutcome;
  users_update_throws : bool;
  serverTimestamp : Z
}.

(** Process state, the two Firestore collections and the scratch
    directory.  A file is known by its normalised path, relative to the
    working directory of the server unless it is absolute. *)
Record World := {
  keyUsageCount : gmap string nat;
  users : gmap string UserDoc;
  videos : list (string * VideoRecord);
  files : gset string
}.

Definition set_keyUsageCount (m : gmap string nat) (w : World) : World :=
  {| keyUsageCount := m; users := users w; videos := videos w;
     files := files w |}.

Definition set_users (u : gmap string UserDoc) (w : World) : World :=
  {| keyUsageCount := keyUsageCount w; users := u; videos := videos w;
     files := files w |}.

Definition set_videos (v : list (string * VideoRecord)) (w : World) : World :=
  {| keyUsageCount := keyUsageCount w; users := users w; videos := v;
     files := files w |}.

Definition set_files (f : gset string) (w : World) : World :=
  {| keyUsageCount := keyUsageCount w; users := users w; videos := videos w;
     files := f |}.

(** *** Control flow of the handler body

    Inside the [try] block a statement yields a value, throws, or answers
    the request and [return]s.  It may change the world, and the calls it
    makes are collected in order. *)

Inductive Exit :=
| Threw (e : JsError)
| Returned (r : Response).

Record Outcome (A : Type) := {
  result : A + Exit;
  state : World;
  events : list Effect
}.

Arguments result {A} _.
Arguments state {A} _.
Arguments events {A} _.

Definition M (A : Type) : Type := World → Outcome A.

#[global] Instance M_ret : MRet M := λ A a w,
  {| result := inl a; state := w; events := [] |}.

#[global] Instance M_bind : MBind M := λ A B f m w,
  match m w with
  | {| result := inl a; state := w'; events := t |} =>
      match f a w' with
      | {| result := r; state := w''; events := t' |} =>
          {| result := r; state := w''; events := t ++ t' |}
      end
  | {| result := inr e; state := w'; events := t |} =>
      {| result := inr e; state := w'; events := t |}
  end.

Definition throw {A} (e : JsError) : M A :=
  λ w, {| result := inr (Threw e); state := w; events := [] |}.

Definition respond {A} (r : Response) : M A :=
  λ w, {| result := inr (Returned r); state := w; events := [] |}.

Definition emit (e : Effect) : M unit :=
  λ w, {| result := inl (); state := w; events := [e] |}.

(** A change of the world that cannot fail. *)
Definition modify (f : World → World) : M unit :=
  λ w, {| result := inl (); state := f w; events := [] |}.

Definition create_file (path : string) : M unit :=
  modify (λ w, set_files ({[ path ]} ∪ files w) w).

Definition delete_file (path : string) : M unit :=
  modify (λ w, set_files (files w ∖ {[ path ]}) w).

(** [fs.removeSync(path)].  Removing a path that does not exist is not an
    error, and the handler only removes files it wrote itself, so the
    call is taken to succeed. *)
Definition removeSync (path : string) : M unit :=
  _ ← emit (RemoveSync path); delete_file path.

(** JavaScript truthiness of a string-valued property: [undefined] and the
    empty string are falsy. *)
Definition truthy (v : option string) : option string :=
  match v with
  | Some EmptyString => None
  | _ => v
  end.

(** *** Paths: [path.join] on a POSIX system *)

(** The segments of a path that [path.normalize] keeps, last segment
    first: empty segments and [.] are dropped, [..] takes back the segment
    before it, and is kept where there is none to take back unless the
    path is absolute. *)
Fixpoint resolve (allowAboveRoot : bool) (segments res : list string)
  : list string :=
  match segments with
  | [] => res
  | segment :: rest =>
      if String.eqb segment "" || String.eqb segment "."
      then resolve allowAboveRoot rest res
      else if String.eqb segment ".." then
        match res with
        | last :: res' =>
            if String.eqb last ".."
            then resolve allowAboveRoot rest
                   (if allowAboveRoot then ".." :: res else res)
            else resolve allowAboveRoot rest res'
        | [] =>
            resolve allowAboveRoot rest
              (if allowAboveRoot then [".."] else [])
        end
      else resolve allowAboveRoot rest (segment :: res)
  end.

Definition starts_with_slash (path : string) : bool :=
  match path with
  | String c _ => Ascii.eqb c "/"
  | EmptyString => false
  end.

Fixpoint ends_with_slash (path : string) : bool :=
  match path with
  | EmptyString => false
  | String c EmptyString => Ascii.eqb c "/"
  | String _ rest => ends_with_slash rest
  end.

(** [path.normalize(path)] *)
Definition normalize (path : string) : string :=
  if String.eqb path "" then "."
  else
    let isAbsolute := starts_with_slash path in
    let trailingSeparator := ends_with_slash path in
    let kept :=
      String.concat "/"
        (rev (resolve (negb isAbsolute) (split_at "/" path) [])) in
    if String.eqb kept "" then
      if isAbsolute then "/" else if trailingSeparator then "./" else "."
    else
      (if isAbsolute then "/" else "") ++ kept
      ++ (if trailingSeparator then "/" else "").

(** [path.join(dir, name)]: the arguments that are not empty, joined by
    [/] and normalised; so [./output] and a file name give
    [output/<name>]. *)
Definition path_join (dir name : string) : string :=
  if String.eqb dir "" then normalize name
  else if String.eqb name "" then normalize dir
  else normalize (dir ++ "/" ++ name).

(** *** Steps of the handler *)

Definition default_voice : string := "1bd001e7e50f421d891986aad5158bc8".

Definition maxAttempts : nat := 60.

(** Step 1: [getNextHeyGenKey()] on the process-wide counters. *)
Definition acquire_key (env : Env) : M (option string) :=
  λ w, let '(key, m) := getNextHeyGenKey (HEYGEN_KEYS env) (keyUsageCount w) in
       {| result := inl key; state := set_keyUsageCount m w; events := [] |}.

(** Step 2: dimensions from [customDimensions] or from the orientation.
    An object is always truthy, so [if (customDimensions)] is the [Some]
    case. *)
Definition select_dimensions (customDimensions : option Dimensions)
    (orientation : string) : Dimensions :=
  match customDimensions with
  | Some d => d
  | None =>
      if String.eqb orientation "portrait"
      then {| width := 720; height := 1280 |}
      else if String.eqb orientation "square"
      then {| width := 1080; height := 1080 |}
      else {| width := 1280; height := 720 |}
  end.

(** Step 3: [axios.post] to the provider. *)
Definition heygen_generate (env : Env) (apiKey : string) (dimension : Dimensions)
    (avatar script voice : string) : M string :=
  _ ← emit (HeyGenGenerate apiKey dimension avatar script voice);
  match submit env with
  | SubmitOk video_id => mret video_id
  | SubmitThrows e => throw e
  end.

(** How the [try] block inside the poll loop ends. *)
Inductive TryResult :=
| Break (videoUrl : option string)
| FellThrough
| Caught (pollError : JsError).

(** The [try] block of one iteration.  The [throw] of the ['failed']
    branch is inside the [try], so the [catch (pollError)] of the same
    statement receives it. *)
Definition poll_try (answer : PollOutcome) : TryResult :=
  match answer with
  | PollThrows e => Caught e
  | PollOk status video_url =>
      if String.eqb status "completed" then Break video_url
      else if String.eqb status "failed"
      then Caught (Error "HeyGen video generation failed")
      else FellThrough
  end.

(** The [while] loop, by recursion on [remaining = maxAttempts - attempts].
    [videoUrl] is [null] whenever the condition is evaluated inside the
    loop, because its only assignment is followed by [break]; so the
    condition is [attempts < maxAttempts], that is [remaining] is not 0.
    The result is the value of [videoUrl] after the loop. *)
Fixpoint poll_loop (env : Env) (apiKey videoId : string) (remaining : nat)
  : M (option string) :=
  match remaining with
  | 0 => mret None
  | S remaining' =>
      let attempts := maxAttempts - remaining in
      _ ← emit (Sleep 5000);
      _ ← emit (HeyGenStatus apiKey videoId);
      match poll_try (status_get env attempts) with
      | Break videoUrl => mret videoUrl
      | FellThrough => poll_loop env apiKey videoId remaining'
      | Caught pollError => poll_loop env apiKey videoId remaining'
      end
  end.

Definition tempVideoPath (env : Env) : string :=
  path_join (outputDir env) ("temp-" ++ uuid_temp env ++ ".mp4").

Definition cleanVideoPath (env : Env) : string :=
  path_join (outputDir env) ("clean-" ++ uuid_clean env ++ ".mp4").

(** Step 4: stream the provider's file to [tempVideoPath]. *)
Definition download_video (env : Env) (videoUrl : string) : M string :=
  _ ← emit (Download videoUrl);
  match download env with
  | DownloadGetThrows e => throw e
  | DownloadOk =>
      _ ← create_file (tempVideoPath env); mret (tempVideoPath env)
  | DownloadWriteThrows e file_created =>
      _ ← (if file_created then create_file (tempVideoPath env) else mret ());
      throw e
  end.

(** [removeWatermark(inputPath, outputPath)]: one ffmpeg run; the promise
    resolves on [end] and rejects on [error].  Nothing is deleted here. *)
Definition removeWatermark (env : Env) (inputPath outputPath : string)
  : M string :=
  _ ← emit (Ffmpeg inputPath watermark_filter outputPath);
  match ffmpeg env with
  | CropEnd => _ ← create_file outputPath; mret outputPath
  | CropError e output_created =>
      _ ← (if output_created then create_file outputPath else mret ());
      throw e
  end.

(** [uploadToCatbox(videoPath)]: any failure is rethrown as a fresh error
    without a [response]. *)
Definition uploadToCatbox (env : Env) (videoPath : string) : M string :=
  _ ← emit (CatboxUpload videoPath);
  match catbox env with
  | UploadOk data => mret data
  | UploadThrows _ => throw (Error "Failed to upload video to Catbox")
  end.

Definition add_video (docId : string) (record : VideoRecord) : M unit :=
  modify (λ w, set_videos (videos w ++ [(docId, record)]) w).

(** [storeVideoUrl(videoData)] *)
Definition storeVideoUrl (env : Env) (data : VideoData) : M string :=
  let record := {| videoData := data; createdAt := serverTimestamp env;
                   video_status := "completed" |} in
  _ ← emit (VideosSet record);
  match videos_set env with
  | StoreOk docId => _ ← add_video docId record; mret docId
  | StoreThrows e => throw e
  end.

Definition write_users (env : Env) (userId type : string) : M unit :=
  modify (λ w, set_users (updateUsage (users w) (users_update_throws env)
                            (serverTimestamp env) userId type) w).

(** [await updateUsage(userId, type)] *)
Definition update_usage (env : Env) (userId type : string) : M unit :=
  _ ← emit (UpdateUsage userId type); write_users env userId type.

(** [req.user], dereferenced. *)
Definition the_user (req : Request) : M User :=
  match req_user req with
  | Some user => mret user
  | None => throw (Error "Cannot read properties of undefined")
  end.

(** *** The handler *)

(** The [try] block. *)
Definition handler_try (env : Env) (req : Request) : M Response :=
  let b := req_body req in
  let voice := default default_voice (voice b) in
  let orientation := default "landscape" (orientation b) in
  match truthy (script b), truthy (avatar b) with
  | Some script, Some avatar =>
      apiKey ← acquire_key env;
      match truthy apiKey with
      | None => respond {| status := 503; body := ErrorBody "No API keys available" |}
      | Some apiKey =>
          let dimensions := select_dimensions (customDimensions b) orientation in
          videoId ← heygen_generate env apiKey dimensions avatar script voice;
          videoUrl ← poll_loop env apiKey videoId maxAttempts;
          match truthy videoUrl with
          | None =>
              respond {| status := 408; body := ErrorBody "Video generation timeout" |}
          | Some videoUrl =>
              tempVideoPath ← download_video env videoUrl;
              let cleanVideoPath := cleanVideoPath env in
              _ ← removeWatermark env tempVideoPath cleanVideoPath;
              catboxUrl ← uploadToCatbox env cleanVideoPath;
              user ← the_user req;
              let videoData := {|
                userId := uid user;
                userEmail := email user;
                originalUrl := videoUrl;
                processedUrl := catboxUrl;
                video_script := script;
                video_avatar := avatar;
                video_voice := voice;
                video_orientation := orientation;
                dimensions := dimensions;
                duration := "~45 seconds";
                storage := "Catbox.moe";
                video_type := "custom";
                video_templateId := truthy (templateId b);
                video_customAssets := default [] (customAssets b);
                aiGenerated := false
              |} in
              storedVideoId ← storeVideoUrl env videoData;
              _ ← update_usage env (uid user) "video";
              _ ← removeSync tempVideoPath;
              _ ← removeSync cleanVideoPath;
              mret {| status := 200; body := SuccessBody storedVideoId catboxUrl |}
          end
      end
  | _, _ =>
      respond {| status := 400; body := ErrorBody "Script and avatar are required" |}
  end.

(** The [catch (error)] block. *)
Definition handler_catch (error : JsError) : Response :=
  match error_response error with
  | Some (code, data) =>
      {| status := code; body := ErrorDetailsBody "HeyGen API Error" data |}
  | None =>
      {| status := 500;
         body := ErrorMessageBody "Internal server error" (error_message error) |}
  end.

(** One request served: the answer, the world afterwards and the calls
    made on the way. *)
Record Run := {
  response : Response;
  final : World;
  trace : list Effect
}.

Definition handler (env : Env) (req : Request) (w : World) : Run :=
  match handler_try env req w with
  | {| result := inl r; state := w'; events := t |} =>
      {| response := r; final := w'; trace := t |}
  | {| result := inr (Returned r); state := w'; events := t |} =>
      {| response := r; final := w'; trace := t |}
  | {| result := inr (Threw error); state := w'; events := t |} =>
      {| response := handler_catch error; final := w'; trace := t |}
  end.

Definition answer (r : Response) (w : World) : Run :=
  {| response := r; final := w; trace := [] |}.

(** The route after authentication: [checkVideoLimits], then the
    handler.  [verifyToken] has run before and has set [req.user] (it
    answers 401 itself otherwise); it belongs to authentication and is not
    part of the pipeline. *)
Definition generate_video (env : Env) (req : Request) (w : World) : Run :=
  match checkVideoLimits (users w) (users_get_throws env) (req_user req) with
  | AuthenticationRequired =>
      answer {| status := 401; body := ErrorBody "Authentication required" |} w
  | InsufficientCredits currentCredits creditsNeeded options =>
      answer {| status := 403;
                body := InsufficientCreditsBody currentCredits creditsNeeded
                          options |} w
  | FailedToCheckCredits =>
      answer {| status := 500; body := ErrorBody "Failed to check credits" |} w
  | Next _ => handler env req w
  end.

End Pipeline.

(** * Observing a run *)

Import CredentialPool Ledger Watermark Pipeline.

(** ** The credential pool after [k] calls *)

(** The fill pattern: after [k] calls on a fresh map, key number [i] has
    been used [min KEY_QUOTA (k - KEY_QUOTA * i)] times. *)
Definition filled (keys : list string) (k : nat) (m : gmap string nat)
  : Prop :=
  ∀ i key, keys !! i = Some key →
    usage m key = Nat.min KEY_QUOTA (k - KEY_QUOTA * i).

(** No key of the pool is named like a member that every object
    inherits.  Keys are the secrets the provider issues. *)
Definition plain_names (keys : list string) : Prop :=
  ∀ key, key ∈ keys → inherited key = false.

(** ** The poll loop in closed form *)

(** The value of [videoUrl] after the poll loop, read off the provider's
    answers. *)
Fixpoint poll_value (env : Env) (remaining : nat) : option string :=
  match remaining with
  | 0 => None
  | S remaining' =>
      match poll_try (status_get env (maxAttempts - remaining)) with
      | Break videoUrl => videoUrl
      | _ => poll_value env remaining'
      end
  end.

(** The number of iterations the poll loop performs. *)
Fixpoint poll_count (env : Env) (remaining : nat) : nat :=
  match remaining with
  | 0 => 0
  | S remaining' =>
      match poll_try (status_get env (maxAttempts - remaining)) with
      | Break _ => 1
      | _ => S (poll_count env remaining')
      end
  end.

(** The calls of [n] iterations: a 5 second wait, then the status query. *)
Fixpoint poll_rounds (apiKey videoId : string) (n : nat) : list Effect :=
  match n with
  | 0 => []
  | S n' =>
      Sleep 5000 :: HeyGenStatus apiKey videoId :: poll_rounds apiKey videoId n'
  end.

(** ** Projections of a trace *)

Definition is_commit (e : Effect) : bool :=
  match e with
  | UpdateUsage _ type => String.eqb type "video"
  | _ => false
  end.

(** How often [updateUsage(uid, 'video')] was called. *)
Definition commits (t : list Effect) : nat := length (List.filter is_commit t).

Definition is_status_query (e : Effect) : bool :=
  match e with
  | HeyGenStatus _ _ => true
  | _ => false
  end.

(** How many status queries were sent. *)
Definition polls (t : list Effect) : nat :=
  length (List.filter is_status_query t).

(** Total time slept, in milliseconds. *)
Fixpoint waited (t : list Effect) : Z :=
  match t with
  | [] => 0
  | Sleep ms :: t' => ms + waited t'
  | _ :: t' => waited t'
  end.

(** The dimensions of the jobs submitted to the provider. *)
Fixpoint submitted (t : list Effect) : list Dimensions :=
  match t with
  | [] => []
  | HeyGenGenerate _ dimension _ _ _ :: t' => dimension :: submitted t'
  | _ :: t' => submitted t'
  end.

(** The paths handed to [fs.removeSync]. *)
Fixpoint removed (t : list Effect) : list string :=
  match t with
  | [] => []
  | RemoveSync path :: t' => path :: removed t'
  | _ :: t' => removed t'
  end.

Definition is_download (e : Effect) : bool :=
  match e with
  | Download _ => true
  | _ => false
  end.

(** Whether the download of step 4 was started. *)
Definition downloading (t : list Effect) : bool := existsb is_download t.

(** The answer of the success path. *)
Definition succeeded (r : Response) : bool :=
  match body r with
  | SuccessBody _ _ => true
  | _ => false
  end.

(** The request with its [orientation] property replaced. *)
Definition with_orientation (o : option string) (req : Request) : Request := {|
  req_user := req_user req;
  req_body := {|
    script := script (req_body req);
    avatar := avatar (req_body req);
    voice := voice (req_body req);
    orientation := o;
    customDimensions := customDimensions (req_body req);
    templateId := templateId (req_body req);
    customAssets := customAssets (req_body req)
  |}
|}.

(** ** Scenarios *)

Definition alice : User := {| uid := "alice"; email := "alice@example.com" |}.

Definition account (n : Z) : UserDoc := {|
  credits := Some n;
  creditsUsed := Some 0%Z;
  videosGenerated := Some 0%Z;
  scriptsGenerated := None;
  lastVideoGenerated := None;
  lastScriptGenerated := None
|}.

(** Alice with [n] credits, fresh key counters, nothing stored. *)
Definition world_with (n : Z) : World := {|
  keyUsageCount := ∅;
  users := {[ "alice" := account n ]};
  videos := [];
  files := ∅
|}.

Definition request : Request := {|
  req_user := Some alice;
  req_body := {| script := Some "Hello from my avatar";
                 avatar := Some "Adriana_Business_Front_public";
                 voice := None; orientation := None;
                 customDimensions := None; templateId := None;
                 customAssets := None |}
|}.

(** Two keys, every service working, the provider answering the status
    queries with [answers]. *)
Definition env_with (answers : nat → PollOutcome) : Env := {|
  HEYGEN_KEYS := ["key-1"; "key-2"];
  outputDir := "./output";
  users_get_throws := false;
  submit := SubmitOk "video-1";
  status_get := answers;
  download := DownloadOk;
  uuid_temp := "1111";
  uuid_clean := "2222";
  ffmpeg := CropEnd;
  catbox := UploadOk "https://files.catbox.moe/abc.mp4";
  videos_set := StoreOk "doc-1";
  users_update_throws := false;
  serverTimestamp := 1700000000
|}.

Definition processing : PollOutcome := PollOk "processing" None.

Definition completed : PollOutcome :=
  PollOk "completed" (Some "https://resource.heygen.com/video-1.mp4").

Definition failed : PollOutcome := PollOk "failed" None.

(** [completed] on the third query. *)
Definition completes_third (n : nat) : PollOutcome :=
  if n =? 2 then completed else processing.

(** [failed] on the first query, [completed] on the second. *)
Definition fails_then_completes (n : nat) : PollOutcome :=
  if n =? 0 then failed else completed.

(** The same services, but the upload to the file host fails. *)
Definition env_upload_fails : Env := {|
  HEYGEN_KEYS := ["key-1"; "key-2"];
  outputDir := "./output";
  users_get_throws := false;
  submit := SubmitOk "video-1";
  status_get := λ _, completed;
  download := DownloadOk;
  uuid_temp := "1111";
  uuid_clean := "2222";
  ffmpeg := CropEnd;
  catbox := UploadThrows (Error "timeout of 120000ms exceeded");
  videos_set := StoreOk "doc-1";
  users_update_throws := false;
  serverTimestamp := 1700000000
|}.

(** A world in which the raw file has been downloaded. *)
Definition world_downloaded : World :=
  set_files {[ tempVideoPath env_upload_fails ]} (world_with 25).

(** ** Further observations *)

(** The preflight lets the request through. *)
Definition admitted (env : Env) (req : Request) (w : World) : Prop :=
  ∃ info,
    checkVideoLimits (users w) (users_get_throws env) (req_user req) = Next info.

(** The route among other requests.  The preflight reads the user's
    document; the handler reads and writes no user document before its
    commit, which comes after the polling, minutes later.  So whatever
    other requests write to the user documents in between, [others], is in
    place when the commit runs. *)
Definition generate_video_among
    (others : gmap string UserDoc → gmap string UserDoc)
    (env : Env) (req : Request) (w : World) : Run :=
  match checkVideoLimits (users w) (users_get_throws env) (req_user req) with
  | Next _ => handler env req (set_users (others (users w)) w)
  | _ => generate_video env req w
  end.

(** What another run of the same user writes when it commits. *)
Definition other_commit (user : User) (stamp : Z)
    (users : gmap string UserDoc) : gmap string UserDoc :=
  updateUsage users false stamp (uid user) "video".

(** [script] and [avatar] are both present and not empty. *)
Definition well_formed (req : Request) : Prop :=
  is_Some (truthy (script (req_body req)))
  ∧ is_Some (truthy (avatar (req_body req))).

(** The URLs the run started to download. *)
Fixpoint downloads (t : list Effect) : list string :=
  match t with
  | [] => []
  | Download url :: t' => url :: downloads t'
  | _ :: t' => downloads t'
  end.

(** The user document after the commits stamped [stamps], all of which go
    through. *)
Definition after_commits (users : gmap string UserDoc) (userId : string)
    (stamps : list Z) : gmap string UserDoc :=
  foldl (λ us stamp, updateUsage us false stamp userId "video") users stamps.

(** The provider rejects the submission with 429. *)
Definition env_submit_rejected : Env := {|
  HEYGEN_KEYS := ["key-1"; "key-2"];
  outputDir := "./output";
  users_get_throws := false;
  submit := SubmitThrows {| error_message := "Request failed";
                            error_response := Some (429, "quota") |};
  status_get := λ _, processing;
  download := DownloadOk;
  uuid_temp := "1111";
  uuid_clean := "2222";
  ffmpeg := CropEnd;
  catbox := UploadOk "https://files.catbox.moe/abc.mp4";
  videos_set := StoreOk "doc-1";
  users_update_throws := false;
  serverTimestamp := 1700000000
|}.

(** * Other routes of the server *)

Module Routes.

(** ** Stored videos: [GET /api/serve/:videoId], [GET /api/video/:videoId]
    and [DELETE /videos/:videoId] of the history router *)

(** [collection.doc(id).get()]: the document with that id, if any. *)
Definition find_doc {A} (docs : list (string * A)) (id : string) : option A :=
  snd <$> List.find (λ entry, String.eqb entry.1 id) docs.

(** [collection.doc(id).delete()] *)
Definition delete_doc {A} (docs : list (string * A)) (id : string)
  : list (string * A) :=
  List.filter (λ entry, negb (String.eqb entry.1 id)) docs.

Inductive StoreAnswer :=
| Redirected (url : string)
| VideoInfo (videoId : string) (data : VideoRecord)
| DeletedFromHistory
| Refused (code : nat) (error : string).

(** [app.get('/api/serve/:videoId')]; [get_throws] is a rejected Firestore
    read. *)
Definition serve_video (get_throws : bool)
    (videos : list (string * VideoRecord)) (videoId : string) : StoreAnswer :=
  if get_throws then Refused 500 "Failed to redirect to video"
  else match find_doc videos videoId with
       | None => Refused 404 "Video not found"
       | Some doc => Redirected (processedUrl (videoData doc))
       end.

(** [app.get('/api/video/:videoId')] *)
Definition video_info (get_throws : bool)
    (videos : list (string * VideoRecord)) (videoId : string) : StoreAnswer :=
  if get_throws then Refused 500 "Failed to get video info"
  else match find_doc videos videoId with
       | None => Refused 404 "Video not found"
       | Some data => VideoInfo videoId data
       end.

(** [router.delete('/videos/:videoId', verifyToken, ...)]; [user] is the
    [req.user] that [verifyToken] has set. *)
Definition delete_video (get_throws delete_throws : bool) (user : User)
    (videos : list (string * VideoRecord)) (videoId : string)
  : StoreAnswer * list (string * VideoRecord) :=
  if get_throws then (Refused 500 "Failed to delete video", videos)
  else match find_doc videos videoId with
       | None => (Refused 404 "Video not found", videos)
       | Some videoDoc =>
           if negb (String.eqb (userId (videoData videoDoc)) (uid user))
           then (Refused 403 "Unauthorized", videos)
           else if delete_throws
                then (Refused 500 "Failed to delete video", videos)
                else (DeletedFromHistory, delete_doc videos videoId)
       end.

(** ** Dimensions in the two other generating routes *)

(** [POST /api/template/:templateId/generate]: [if ... else if]. *)
Definition template_dimensions (orientation : string) : Dimensions :=
  if String.eqb orientation "portrait"
  then {| width := 720; height := 1280 |}
  else if String.eqb orientation "square"
  then {| width := 1080; height := 1080 |}
  else {| width := 1280; height := 720 |}.

(** [POST /api/generate-video-with-ai]: two [if]s in a row. *)
Definition ai_dimensions (orientation : string) : Dimensions :=
  let dimensions := {| width := 1280; height := 720 |} in
  let dimensions := if String.eqb orientation "portrait"
                    then {| width := 720; height := 1280 |}
                    else dimensions in
  let dimensions := if String.eqb orientation "square"
                    then {| width := 1080; height := 1080 |}
                    else dimensions in
  dimensions.

(** ** [POST /api/template/:templateId/generate] *)

Record Template := {
  template_id : string;
  template_name : string;
  template_category : string;
  recommended_avatar : string;
  recommended_voice : string;
  sample_script : string;
  template_orientation : string
}.

Definition CUSTOM_TEMPLATES : list Template := [
  {| template_id := "business_presentation";
     template_name := "Business Presentation";
     template_category := "business";
     recommended_avatar := "Adriana_BizTalk_Front_public";
     recommended_voice := "1bd001e7e50f421d891986aad5158bc8";
     sample_script := "Welcome to our quarterly business review. Today I'll be presenting our key achievements and future strategies.";
     template_orientation := "landscape" |};
  {| template_id := "social_media_post";
     template_name := "Social Media Content";
     template_category := "social";
     recommended_avatar := "Abigail_expressive_2024112501";
     recommended_voice := "a04d81d19afd436db611060682276331";
     sample_script := "Hey everyone! Welcome back to my channel. Today I have something amazing to share with you!";
     template_orientation := "portrait" |};
  {| template_id := "educational_content";
     template_name := "Educational Video";
     template_category := "education";
     recommended_avatar := "Albert_public_3";
     recommended_voice := "73c0b6a2e29d4d38aca41454bf58c955";
     sample_script := "In today's lesson, we'll explore the fundamental concepts that will help you understand this topic better.";
     template_orientation := "landscape" |};
  {| template_id := "product_demo";
     template_name := "Product Demonstration";
     template_category := "marketing";
     recommended_avatar := "Aditya_public_4";
     recommended_voice := "Qz5fqQAsvzEUvsQ2ugLH";
     sample_script := "Let me show you how this amazing product can solve your everyday problems and make your life easier.";
     template_orientation := "landscape" |};
  {| template_id := "hindi_content";
     template_name := "Hindi Content";
     template_category := "regional";
     recommended_avatar := "Aiko_public";
     recommended_voice := "e3e89b7996b94daebf8a1d6904a1bd11";
     sample_script := "Namaste! Aaj main aapke saath kuch bahut important baatein share karne wala hun.";
     template_orientation := "portrait" |};
  {| template_id := "testimonial";
     template_name := "Customer Testimonial";
     template_category := "marketing";
     recommended_avatar := "Abigail_sitting_sofa_front";
     recommended_voice := "VoCODBvSDQUgLCiN46zd";
     sample_script := "I've been using this service for months now, and I can honestly say it has transformed my business.";
     template_orientation := "square" |};
  {| template_id := "news_update";
     template_name := "News & Updates";
     template_category := "news";
     recommended_avatar := "Adriana_Business_Front_public";
     recommended_voice := "b2ddcef2b1594794aa7f3a436d8cf8f2";
     sample_script := "Good evening. Here are today's top stories and important updates you need to know about.";
     template_orientation := "landscape" |};
  {| template_id := "motivational";
     template_name := "Motivational Content";
     template_category := "lifestyle";
     recommended_avatar := "Albert_public_2";
     recommended_voice := "cef3bc4e0a84424cafcde6f2cf466c97";
     sample_script := "Remember, every great achievement starts with a single step. Today is your day to take that step forward.";
     template_orientation := "portrait" |}
].

(** [req.body.customizations], an empty object when it is not sent. *)
Record Customizations := {
  custom_avatar : option string;
  custom_voice : option string
}.

(** The job posted to the provider. *)
Record Job := {
  job_key : string;
  job_dimension : Dimensions;
  job_avatar : string;
  job_script : string;
  job_voice : string
}.

Inductive TemplateAnswer :=
| TemplateStarted (videoId template orientation : string)
| TemplateRefused (code : nat) (error : string).

(** What the template route did: its answer, the key counters afterwards
    and the job it posted, if it posted one. *)
Record TemplateRun := {
  template_answer : TemplateAnswer;
  template_usage : gmap string nat;
  template_job : option Job
}.

(** The route handler.  It sits behind no middleware: neither
    [verifyToken] nor [checkVideoLimits]. *)
Definition template_generate (templates : list Template)
    (HEYGEN_KEYS : list string) (submit : SubmitOutcome)
    (templateId : string) (script : option string)
    (customizations : Customizations) (keyUsageCount : gmap string nat)
  : TemplateRun :=
  match List.find (λ t, String.eqb (template_id t) templateId) templates with
  | None =>
      {| template_answer := TemplateRefused 404 "Template not found";
         template_usage := keyUsageCount; template_job := None |}
  | Some template =>
      let avatar := default (recommended_avatar template)
                      (truthy (custom_avatar customizations)) in
      let voice := default (recommended_voice template)
                     (truthy (custom_voice customizations)) in
      let finalScript := default (sample_script template) (truthy script) in
      let dimensions := template_dimensions (template_orientation template) in
      let '(apiKey, keyUsageCount') :=
        getNextHeyGenKey HEYGEN_KEYS keyUsageCount in
      match truthy apiKey with
      | None =>
          {| template_answer := TemplateRefused 503 "No API keys available";
             template_usage := keyUsageCount'; template_job := None |}
      | Some apiKey =>
          let job := {| job_key := apiKey; job_dimension := dimensions;
                        job_avatar := avatar; job_script := finalScript;
                        job_voice := voice |} in
          match submit with
          | SubmitOk videoId =>
              {| template_answer :=
                   TemplateStarted videoId (template_name template)
                     (template_orientation template);
                 template_usage := keyUsageCount';
                 template_job := Some job |}
          | SubmitThrows _ =>
              {| template_answer :=
                   TemplateRefused 500 "Failed to generate video from template";
                 template_usage := keyUsageCount';
                 template_job := Some job |}
          end
      end
  end.

(** ** [POST /api/generate-video-with-ai] *)

(** [checkScriptLimits]: scripts are free, only a user is required. *)
Definition checkScriptLimits (req_user : option User) : option Response :=
  match req_user with
  | None => Some {| status := 401; body := ErrorBody "Authentication required" |}
  | Some _ => None
  end.

Record AiBody := {
  ai_topic : option string;
  ai_category : option string;
  ai_avatar : option string;
  ai_voice : option string;
  ai_orientation : option string;
  ai_duration : option string;
  ai_language : option string;
  ai_tone : option string
}.

Record AiRequest := { ai_user : option User; ai_body : AiBody }.

(** [completion.choices[0]?.message?.content], or a rejected call. *)
Inductive GroqOutcome :=
| GroqOk (content : option string)
| GroqThrows (e : JsError).

(** The document added to the [ai-videos] collection. *)
Record AiVideoDoc := {
  doc_userId : string;
  doc_userEmail : string;
  doc_topic : string;
  doc_category : string;
  generatedScript : string;
  doc_avatar : string;
  doc_voice : option string;
  doc_orientation : string;
  doc_dimensions : Dimensions;
  doc_videoId : string;
  doc_status : string;
  doc_type : string;
  doc_createdAt : Z
}.

(** The answers of the outside world to one request.  The prompt sent to
    Groq only influences Groq's answer, which is given here. *)
Record AiEnv := {
  ai_keys : list string;
  ai_get_throws : bool;
  groq : GroqOutcome;
  ai_submit : SubmitOutcome;
  ai_add : StoreOutcome;
  ai_video_update_throws : bool;
  ai_script_update_throws : bool;
  ai_stamp : Z
}.

(** What the route reads and writes. *)
Record AiState := {
  ai_keyUsage : gmap string nat;
  ai_users : gmap string UserDoc;
  aiVideos : list (string * AiVideoDoc)
}.

Inductive AiAnswer :=
| AiRejected (r : Response)
| AiStarted (id videoId script topic category : string) (wordCount : nat)
| AiRefused (code : nat) (error : string).

(** [script.split(' ').length] *)
Fixpoint spaces (s : string) : nat :=
  match s with
  | EmptyString => 0
  | String c s' => (if Ascii.eqb c " " then 1 else 0) + spaces s'
  end.

Definition word_count (s : string) : nat := S (spaces s).

Definition ai_set_keyUsage (m : gmap string nat) (s : AiState) : AiState :=
  {| ai_keyUsage := m; ai_users := ai_users s; aiVideos := aiVideos s |}.

(** The handler: every error inside the [try] block gives the same 500.
    [SCRIPT_PROMPTS[category]] under an [inherited] name gives a function
    or an object instead of a prompt, and [promptTemplate.replace]
    throws. *)
Definition ai_handler (env : AiEnv) (req : AiRequest) (s : AiState)
  : AiAnswer * AiState :=
  let b := ai_body req in
  let category := default "business" (ai_category b) in
  let orientation := default "landscape" (ai_orientation b) in
  let failed := AiRefused 500 "AI video generation failed" in
  match truthy (ai_topic b), truthy (ai_avatar b) with
  | Some topic, Some avatar =>
      if inherited category then (failed, s)
      else
      match groq env with
      | GroqThrows _ => (failed, s)
      | GroqOk content =>
          match truthy content with
          | None => (failed, s)
          | Some script =>
              let '(apiKey, keyUsageCount') :=
                getNextHeyGenKey (ai_keys env) (ai_keyUsage s) in
              let s1 := ai_set_keyUsage keyUsageCount' s in
              match truthy apiKey with
              | None => (AiRefused 503 "No API keys available", s1)
              | Some apiKey =>
                  let dimensions := ai_dimensions orientation in
                  match ai_submit env with
                  | SubmitThrows _ => (failed, s1)
                  | SubmitOk videoId =>
                      match ai_user req with
                      | None => (failed, s1)
                      | Some user =>
                          let combinedData := {|
                            doc_userId := uid user;
                            doc_userEmail := email user;
                            doc_topic := topic;
                            doc_category := category;
                            generatedScript := script;
                            doc_avatar := avatar;
                            doc_voice := ai_voice b;
                            doc_orientation := orientation;
                            doc_dimensions := dimensions;
                            doc_videoId := videoId;
                            doc_status := "processing";
                            doc_type := "ai-generated";
                            doc_createdAt := ai_stamp env
                          |} in
                          match ai_add env with
                          | StoreThrows _ => (failed, s1)
                          | StoreOk id =>
                              let users1 :=
                                updateUsage (ai_users s)
                                  (ai_video_update_throws env) (ai_stamp env)
                                  (uid user) "video" in
                              let users2 :=
                                updateUsage users1
                                  (ai_script_update_throws env) (ai_stamp env)
                                  (uid user) "script" in
                              (AiStarted id videoId script topic category
                                 (word_count script),
                               {| ai_keyUsage := keyUsageCount';
                                  ai_users := users2;
                                  aiVideos :=
                                    aiVideos s ++ [(id, combinedData)] |})
                          end
                      end
                  end
              end
          end
      end
  | _, _ => (AiRefused 400 "Topic and avatar are required", s)
  end.

(** The route after authentication: [checkVideoLimits],
    [checkScriptLimits], then the handler. *)
Definition generate_video_with_ai (env : AiEnv) (req : AiRequest) (s : AiState)
  : AiAnswer * AiState :=
  match checkVideoLimits (ai_users s) (ai_get_throws env) (ai_user req) with
  | AuthenticationRequired =>
      (AiRejected {| status := 401;
                     body := ErrorBody "Authentication required" |}, s)
  | InsufficientCredits currentCredits creditsNeeded options =>
      (AiRejected {| status := 403;
                     body := InsufficientCreditsBody currentCredits
                               creditsNeeded options |}, s)
  | FailedToCheckCredits =>
      (AiRejected {| status := 500;
                     body := ErrorBody "Failed to check credits" |}, s)
  | Next _ =>
      match checkScriptLimits (ai_user req) with
      | Some r => (AiRejected r, s)
      | None => ai_handler env req s
      end
  end.

End Routes.

(** ** Observing the other routes *)

Definition started (answer : Routes.AiAnswer) : bool :=
  match answer with
  | Routes.AiStarted _ _ _ _ _ _ => true
  | _ => false
  end.

(** A request to the AI route and the answers it meets. *)
Definition ai_request : Routes.AiRequest := {|
  Routes.ai_user := Some alice;
  Routes.ai_body := {|
    Routes.ai_topic := Some "Opening hours";
    Routes.ai_category := None;
    Routes.ai_avatar := Some "Adriana_BizTalk_Front_public";
    Routes.ai_voice := Some "1bd001e7e50f421d891986aad5158bc8";
    Routes.ai_orientation := None;
    Routes.ai_duration := None;
    Routes.ai_language := None;
    Routes.ai_tone := None
  |}
|}.

Definition ai_env : Routes.AiEnv := {|
  Routes.ai_keys := ["k1"; "k2"];
  Routes.ai_get_throws := false;
  Routes.groq := Routes.GroqOk (Some "We are open every day from nine to five.");
  Routes.ai_submit := SubmitOk "v1";
  Routes.ai_add := StoreOk "ai-1";
  Routes.ai_video_update_throws := false;
  Routes.ai_script_update_throws := false;
  Routes.ai_stamp := 1700000000
|}.

Definition ai_state (n : Z) : Routes.AiState := {|
  Routes.ai_keyUsage := ∅;
  Routes.ai_users := {[ uid alice := account n ]};
  Routes.aiVideos := []
|}.

(** * The per-user rate limiter of the auth middleware *)

Module RateLimit.

(** [const requests = new Map()]: user id to the times of its requests. *)
Abbreviation Requests := (gmap string (list Z)).

(** [next()], or the answer 429 with the limit in its message. *)
Inductive Verdict :=
| Passed
| Limited (maxRequests : nat).

(** The middleware returned by [userRateLimit(maxRequests, windowMs)],
    applied to one request at time [now = Date.now()]. *)
Definition userRateLimit (maxRequests : nat) (windowMs : Z)
    (req_user : option User) (now : Z) (requests : Requests)
  : Verdict * Requests :=
  match req_user with
  | None => (Passed, requests)
  | Some user =>
      let userId := uid user in
      let windowStart := (now - windowMs)%Z in
      let requests := match requests !! userId with
                      | Some _ => requests
                      | None => <[userId := []]> requests
                      end in
      let userRequests := default [] (requests !! userId) in
      let validRequests :=
        List.filter (λ time, (windowStart <? time)%Z) userRequests in
      if maxRequests <=? length validRequests
      then (Limited maxRequests, requests)
      else (Passed, <[userId := (validRequests ++ [now])%list]> requests)
  end.

(** The middleware serving requests one after the other, each with the
    time at which it arrives. *)
Fixpoint serve (maxRequests : nat) (windowMs : Z)
    (arrivals : list (option User * Z)) (requests : Requests)
  : list Verdict * Requests :=
  match arrivals with
  | [] => ([], requests)
  | (req_user, now) :: rest =>
      let '(verdict, requests') :=
        userRateLimit maxRequests windowMs req_user now requests in
      let '(verdicts, final) := serve maxRequests windowMs rest requests' in
      (verdict :: verdicts, final)
  end.

End RateLimit.

(** ** Observing the rate limiter *)

(** The times stored for a user. *)
Definition stored (requests : RateLimit.Requests) (userId : string) : list Z :=
  default [] (requests !! userId).

(** [x] lies in the window that ends at [T]: [T - windowMs < x ≤ T]. *)
Definition in_window (windowMs T x : Z) : bool :=
  (T - windowMs <? x)%Z && (x <=? T)%Z.

(** [x] is later than the start of the window that ends at [now]. *)
Definition recent (windowMs now x : Z) : bool := (now - windowMs <? x)%Z.

(** The arrival times of the requests of [userId] that were passed on. *)
Fixpoint passed_times (userId : string) (arrivals : list (option User * Z))
    (verdicts : list RateLimit.Verdict) : list Z :=
  match arrivals, verdicts with
  | (Some user, now) :: arrivals', RateLimit.Passed :: verdicts' =>
      if String.eqb (uid user) userId
      then now :: passed_times userId arrivals' verdicts'
      else passed_times userId arrivals' verdicts'
  | _ :: arrivals', _ :: verdicts' => passed_times userId arrivals' verdicts'
  | _, _ => []
  end.

(** The clock never runs backwards: arrival times do not decrease, and
    none is before [start]. *)
Fixpoint monotone (start : Z) (arrivals : list (option User * Z)) : Prop :=
  match arrivals with
  | [] => True
  | (_, now) :: rest => (start ≤ now)%Z ∧ monotone now rest
  end.

(** The time of the last arrival, [start] when there is none. *)
Fixpoint latest (start : Z) (arrivals : list (option User * Z)) : Z :=
  match arrivals with
  | [] => start
  | (_, now) :: rest => latest now rest
  end.

(** What the stored times know about the requests passed so far, [hist]:
    they agree on everything that a window ending at [c] or later can
    see; no passed request is later than [c]; no window holds more than
    [maxRequests] passed requests. *)
Definition limiter_inv (maxRequests : nat) (windowMs c : Z)
    (requests : RateLimit.Requests) (hist : string → list Z) : Prop :=
  (∀ u t, (c ≤ t)%Z →
     List.filter (recent windowMs t) (stored requests u)
     = List.filter (recent windowMs t) (hist u))
  ∧ (∀ u x, x ∈ hist u → (x ≤ c)%Z)
  ∧ (∀ u T, length (List.filter (in_window windowMs T) (hist u)) ≤ maxRequests).

(** [hist] after one more request. *)
Definition extend (hist : string → list Z) (req_user : option User) (now : Z)
    (verdict : RateLimit.Verdict) (u : string) : list Z :=
  match req_user, verdict with
  | Some user, RateLimit.Passed =>
      if String.eqb (uid user) u then (hist u ++ [now])%list else hist u
  | _, _ => hist u
  end.

(** Three requests of one user within a second, then one a minute later. *)
Definition burst : list (option User * Z) :=
  [(Some alice, 1000%Z); (Some alice, 1200%Z); (None, 1300%Z);
   (Some alice, 1500%Z); (Some alice, 61100%Z)].

(** * Buying credits: the payment and pricing routes *)

Module Billing.

Local Open Scope Z_scope.

(** The fields of a document of the [users] collection that the first
    login writes and that no purchase touches.  A field that the document
    does not have, or that holds [null], is [None]. *)
Record Profile := {
  profile_uid : option string;
  profile_email : option string;
  displayName : option string;
  photoURL : option string;
  profile_createdAt : option Z;
  lastLogin : option Z;
  isActive : option bool
}.

(** A document of the [users] collection: the fields of the ledger, those
    of the first login and those that purchases write. *)
Record Account := {
  usage : UserDoc;
  profile : Profile;
  totalSpent : option Z;
  plan : option string;
  lastPurchase : option Z;
  subscriptionStart : option Z;
  nextBilling : option Z
}.

(** The view that [checkVideoLimits] and [updateUsage] have of the
    collection. *)
Definition ledger (users : gmap string Account) : gmap string UserDoc :=
  usage <$> users.

(** A document of the [orders] collection. *)
Record Order := {
  order_userId : string;
  order_type : string;
  order_planId : option string;
  order_credits : Z;
  order_amount : Z;
  order_currency : string;
  order_status : string;
  razorpayOrderId : string;
  order_createdAt : Z;
  order_paymentId : option string;
  order_signature : option string;
  completedAt : option Z
}.

(** A document of the [transactions] collection. *)
Record Transaction := {
  tx_userId : string;
  tx_type : string;
  tx_credits : Z;
  tx_amount : Z;
  tx_pricePerCredit : option Z;
  tx_orderId : option string;
  tx_paymentId : option string;
  tx_planId : option string;
  tx_status : string;
  tx_createdAt : Z
}.

Record Store := {
  store_users : gmap string Account;
  store_orders : gmap string Order;
  store_transactions : list Transaction
}.

Definition set_store_users (users : gmap string Account) (s : Store) : Store :=
  {| store_users := users; store_orders := store_orders s;
     store_transactions := store_transactions s |}.

Definition set_store_orders (orders : gmap string Order) (s : Store) : Store :=
  {| store_users := store_users s; store_orders := orders;
     store_transactions := store_transactions s |}.

Definition add_transaction (t : Transaction) (s : Store) : Store :=
  {| store_users := store_users s; store_orders := store_orders s;
     store_transactions := (store_transactions s ++ [t])%list |}.

Inductive Answer :=
| Declined (code : nat) (error : string)
| OrderCreated (orderId : string) (amount : Z) (currency : string)
               (credits : Z)
| PaymentVerified (type : string) (credits : Z) (totalCredits : option Z)
                  (plan orderId : string) (paymentId : option string)
| CreditsAdded (creditsAdded : Z) (totalCredits : option Z) (amountPaid : Z)
               (orderId paymentId : option string)
| CreditBalance (credits creditsUsed videosGenerated creditsPerVideo
                 possibleVideos : Z).

(** [userRef.update(...)] on an account: rejects when the document does
    not exist or when the store is unreachable. *)
Definition account_update (users : gmap string Account) (update_throws : bool)
    (userId : string) (f : Account → Account) : option (gmap string Account) :=
  match users !! userId with
  | Some a => if update_throws then None else Some (<[userId := f a]> users)
  | None => None
  end.

(** [credits: FieldValue.increment(n)] on the ledger fields. *)
Definition add_to_credits (n : Z) (d : UserDoc) : UserDoc := {|
  credits := increment n (credits d);
  creditsUsed := creditsUsed d;
  videosGenerated := videosGenerated d;
  scriptsGenerated := scriptsGenerated d;
  lastVideoGenerated := lastVideoGenerated d;
  lastScriptGenerated := lastScriptGenerated d
|}.

(** The update of a credit purchase. *)
Definition credit_purchase (n amount stamp : Z) (a : Account) : Account := {|
  usage := add_to_credits n (usage a);
  profile := profile a;
  totalSpent := increment amount (totalSpent a);
  plan := plan a;
  lastPurchase := Some stamp;
  subscriptionStart := subscriptionStart a;
  nextBilling := nextBilling a
|}.

(** The update of a subscription purchase. *)
Definition subscription_purchase (planId : string) (n amount stamp next : Z)
    (a : Account) : Account := {|
  usage := add_to_credits n (usage a);
  profile := profile a;
  totalSpent := increment amount (totalSpent a);
  plan := Some planId;
  lastPurchase := Some stamp;
  subscriptionStart := Some stamp;
  nextBilling := Some next
|}.

(** ** [payment.js] *)

(** [razorpay.orders.create(options)] *)
Inductive RazorpayOutcome :=
| RazorpayOk (id : string) (amount : Z) (currency : string)
| RazorpayThrows.

(** [POST /create-order/credits].  The body's [credits], when present, is
    taken to be a whole number; [razorpay] answers the request for an
    amount in paise; [doc(id)] throws for an empty id. *)
Definition create_order_credits (razorpay : Z → RazorpayOutcome)
    (set_throws : bool) (stamp : Z) (user : User) (credits : option Z)
    (s : Store) : Answer * Store :=
  match credits with
  | None => (Declined 400 "Invalid credit amount (20-500)", s)
  | Some credits =>
      if (credits =? 0) || (credits <? 20) || (500 <? credits)
      then (Declined 400 "Invalid credit amount (20-500)", s)
      else
        let amount := credits * 4 in
        match razorpay (amount * 100) with
        | RazorpayThrows => (Declined 500 "Failed to create order", s)
        | RazorpayOk id order_amount currency =>
            if String.eqb id "" || set_throws
            then (Declined 500 "Failed to create order", s)
            else
              (OrderCreated id order_amount currency credits,
               set_store_orders
                 (<[id := {| order_userId := uid user;
                             order_type := "credits";
                             order_planId := None;
                             order_credits := credits;
                             order_amount := amount;
                             order_currency := "INR";
                             order_status := "created";
                             razorpayOrderId := id;
                             order_createdAt := stamp;
                             order_paymentId := None;
                             order_signature := None;
                             completedAt := None |}]> (store_orders s)) s)
        end
  end.

(** What [POST /verify] meets: the HMAC-SHA256 of a message under the
    Razorpay secret, as a hex string, and the store calls that reject. *)
Record PayEnv := {
  hmac : string → string;
  order_get_throws : bool;
  user_update_throws : bool;
  order_update_throws : bool;
  transaction_add_throws : bool;
  user_get_throws : bool;
  pay_stamp : Z;
  next_month : Z
}.

(** A value concatenated to a string: [undefined] reads ['undefined']. *)
Definition js_string (v : option string) : string := default "undefined" v.

(** [expectedSignature !== razorpay_signature] *)
Definition signature_differs (expected : string) (given : option string) : bool :=
  match given with
  | Some signature => negb (String.eqb expected signature)
  | None => true
  end.

(** The order document after [update({status: 'completed', ...})]. *)
Definition complete_order (paymentId signature : option string) (stamp : Z)
    (o : Order) : Order := {|
  order_userId := order_userId o;
  order_type := order_type o;
  order_planId := order_planId o;
  order_credits := order_credits o;
  order_amount := order_amount o;
  order_currency := order_currency o;
  order_status := "completed";
  razorpayOrderId := razorpayOrderId o;
  order_createdAt := order_createdAt o;
  order_paymentId := paymentId;
  order_signature := signature;
  completedAt := Some stamp
|}.

(** The account update that [/verify] makes for an order; [None] when the
    update rejects.  An order of another type updates nothing. *)
Definition apply_order (env : PayEnv) (userId : string) (orderData : Order)
    (users : gmap string Account) : option (gmap string Account) :=
  if String.eqb (order_type orderData) "credits" then
    account_update users (user_update_throws env) userId
      (credit_purchase (order_credits orderData) (order_amount orderData)
         (pay_stamp env))
  else if String.eqb (order_type orderData) "subscription" then
    match order_planId orderData with
    | Some planId =>
        account_update users (user_update_throws env) userId
          (subscription_purchase planId (order_credits orderData)
             (order_amount orderData) (pay_stamp env) (next_month env))
    | None => None
    end
  else Some users.

(** [POST /verify].  [doc(id)] throws for an id that is missing or
    empty. *)
Definition verify (env : PayEnv) (user : User)
    (razorpay_order_id razorpay_payment_id razorpay_signature : option string)
    (s : Store) : Answer * Store :=
  let failed := Declined 500 "Payment verification failed" in
  let body := (js_string razorpay_order_id ++ "|"
               ++ js_string razorpay_payment_id)%string in
  let expectedSignature := hmac env body in
  if signature_differs expectedSignature razorpay_signature
  then (Declined 400 "Invalid payment signature", s)
  else
    match truthy razorpay_order_id with
    | None => (failed, s)
    | Some orderId =>
        if order_get_throws env then (failed, s)
        else
          match store_orders s !! orderId with
          | None => (Declined 404 "Order not found", s)
          | Some orderData =>
              if negb (String.eqb (order_userId orderData) (uid user))
              then (Declined 403 "Unauthorized", s)
              else if String.eqb (order_status orderData) "completed"
              then (Declined 400 "Order already processed", s)
              else
                match apply_order env (uid user) orderData (store_users s) with
                | None => (failed, s)
                | Some users1 =>
                    let s1 := set_store_users users1 s in
                    if order_update_throws env then (failed, s1)
                    else
                      let s2 :=
                        set_store_orders
                          (<[orderId := complete_order razorpay_payment_id
                                          razorpay_signature (pay_stamp env)
                                          orderData]> (store_orders s1)) s1 in
                      if transaction_add_throws env then (failed, s2)
                      else
                        let s3 :=
                          add_transaction
                            {| tx_userId := uid user;
                               tx_type := order_type orderData;
                               tx_credits := order_credits orderData;
                               tx_amount := order_amount orderData;
                               tx_pricePerCredit := None;
                               tx_orderId := Some orderId;
                               tx_paymentId := razorpay_payment_id;
                               tx_planId := truthy (order_planId orderData);
                               tx_status := "completed";
                               tx_createdAt := pay_stamp env |} s2 in
                        if user_get_throws env then (failed, s3)
                        else
                          match users1 !! uid user with
                          | None => (failed, s3)
                          | Some userData =>
                              (PaymentVerified (order_type orderData)
                                 (order_credits orderData)
                                 (credits (usage userData))
                                 (default "free" (truthy (plan userData)))
                                 orderId razorpay_payment_id, s3)
                          end
                end
          end
    end.

(** ** The pricing router *)

(** [amount || credits * 4] *)
Definition amount_or (amount : option Z) (fallback : Z) : Z :=
  match amount with
  | Some 0 | None => fallback
  | Some n => n
  end.

(** [POST /add-credits].  [transactions.add] rejects a document with a
    field that is [undefined], so it rejects when the body has no
    [orderId] or no [paymentId]; by then the credits are added. *)
Definition add_credits (update_throws add_throws get_throws : bool)
    (stamp : Z) (user : User) (credits : option Z)
    (orderId paymentId : option string) (amount : option Z) (s : Store)
  : Answer * Store :=
  let failed := Declined 500 "Failed to add credits" in
  match credits with
  | None => (Declined 400 "Invalid credit amount (20-500 allowed)", s)
  | Some credits =>
      if (credits =? 0) || (credits <? 20) || (500 <? credits)
      then (Declined 400 "Invalid credit amount (20-500 allowed)", s)
      else
        match account_update (store_users s) update_throws (uid user)
                (credit_purchase credits (amount_or amount (credits * 4)) stamp)
        with
        | None => (failed, s)
        | Some users1 =>
            let s1 := set_store_users users1 s in
            if add_throws || negb (bool_decide (is_Some orderId))
               || negb (bool_decide (is_Some paymentId))
            then (failed, s1)
            else
              let s2 :=
                add_transaction
                  {| tx_userId := uid user;
                     tx_type := "credit_purchase";
                     tx_credits := credits;
                     tx_amount := amount_or amount (credits * 4);
                     tx_pricePerCredit := Some 4;
                     tx_orderId := orderId;
                     tx_paymentId := paymentId;
                     tx_planId := None;
                     tx_status := "completed";
                     tx_createdAt := stamp |} s1 in
              if get_throws then (failed, s2)
              else
                match users1 !! uid user with
                | None => (failed, s2)
                | Some userData =>
                    (CreditsAdded credits (Ledger.credits (usage userData))
                       (amount_or amount (credits * 4)) orderId paymentId, s2)
                end
        end
  end.

(** [GET /credits] *)
Definition credit_balance (get_throws : bool) (user : User)
    (users : gmap string Account) : Answer :=
  if get_throws then Declined 500 "Failed to fetch credit balance"
  else
    match users !! uid user with
    | None => Declined 404 "User not found"
    | Some userData =>
        CreditBalance (or_zero (credits (usage userData)))
          (or_zero (creditsUsed (usage userData)))
          (or_zero (videosGenerated (usage userData)))
          20
          (or_zero (credits (usage userData)) / 20)
    end.

End Billing.

(** ** Observing purchases *)


(** The order has one of the two types for which [/verify] updates the
    account. *)
Definition credited_type (o : Billing.Order) : bool :=
  String.eqb (Billing.order_type o) "credits"
  || String.eqb (Billing.order_type o) "subscription".

(** Alice's account with [n] credits and no purchase yet. *)
Definition paying (n : Z) : Billing.Account := {|
  Billing.usage := account n;
  Billing.profile := {| Billing.profile_uid := Some "alice";
                        Billing.profile_email := Some "alice@example.com";
                        Billing.displayName := Some "User";
                        Billing.photoURL := None;
                        Billing.profile_createdAt := Some 1690000000%Z;
                        Billing.lastLogin := Some 1690000000%Z;
                        Billing.isActive := Some true |};
  Billing.totalSpent := None;
  Billing.plan := None;
  Billing.lastPurchase := None;
  Billing.subscriptionStart := None;
  Billing.nextBilling := None
|}.

Definition shop (n : Z) : Billing.Store := {|
  Billing.store_users := {[ uid alice := paying n ]};
  Billing.store_orders := ∅;
  Billing.store_transactions := []
|}.

(** Razorpay accepting every order under one id; every store call going
    through; a stand-in for the keyed hash. *)
Definition razorpay_ok (amount : Z) : Billing.RazorpayOutcome :=
  Billing.RazorpayOk "order_1" amount "INR".

Definition pay_env : Billing.PayEnv := {|
  Billing.hmac := λ message, ("sig:" ++ message)%string;
  Billing.order_get_throws := false;
  Billing.user_update_throws := false;
  Billing.order_update_throws := false;
  Billing.transaction_add_throws := false;
  Billing.user_get_throws := false;
  Billing.pay_stamp := 1700000000;
  Billing.next_month := 1702592000
|}.

(** * Authentication: [verifyToken] *)

Module Auth.

(** The decoded token: what becomes [req.user], and the two claims that
    the first login copies.  It carries a non-empty [uid] and, for the
    sign-in methods of the application, an email. *)
Record DecodedToken := {
  token_user : User;
  token_name : option string;
  token_picture : option string
}.

(** [admin.auth().verifyIdToken(token)]: the decoded token, or a rejected
    call. *)
Inductive TokenOutcome :=
| TokenOk (decodedToken : DecodedToken)
| TokenThrows.

(** [next()] with [req.user] set, or the answer 401. *)
Inductive AuthResult :=
| NextWith (user : User)
| Unauthorized (error message : string).

(** The document that [verifyToken] writes at the first login: it has
    [plan], [videosGenerated] and [creditsUsed], and no [credits]. *)
Definition new_account (decodedToken : DecodedToken) (stamp : Z)
  : Billing.Account := {|
  Billing.usage := {| credits := None;
                      creditsUsed := Some 0%Z;
                      videosGenerated := Some 0%Z;
                      scriptsGenerated := None;
                      lastVideoGenerated := None;
                      lastScriptGenerated := None |};
  Billing.profile := {|
    Billing.profile_uid := Some (uid (token_user decodedToken));
    Billing.profile_email := Some (email (token_user decodedToken));
    Billing.displayName :=
      Some (default "User" (truthy (token_name decodedToken)));
    Billing.photoURL := truthy (token_picture decodedToken);
    Billing.profile_createdAt := Some stamp;
    Billing.lastLogin := Some stamp;
    Billing.isActive := Some true
  |};
  Billing.totalSpent := None;
  Billing.plan := Some "free";
  Billing.lastPurchase := None;
  Billing.subscriptionStart := None;
  Billing.nextBilling := None
|}.

(** [update({lastLogin: serverTimestamp()})] on one document. *)
Definition stamp_login (stamp : Z) (a : Billing.Account) : Billing.Account := {|
  Billing.usage := Billing.usage a;
  Billing.profile := {|
    Billing.profile_uid := Billing.profile_uid (Billing.profile a);
    Billing.profile_email := Billing.profile_email (Billing.profile a);
    Billing.displayName := Billing.displayName (Billing.profile a);
    Billing.photoURL := Billing.photoURL (Billing.profile a);
    Billing.profile_createdAt := Billing.profile_createdAt (Billing.profile a);
    Billing.lastLogin := Some stamp;
    Billing.isActive := Billing.isActive (Billing.profile a)
  |};
  Billing.totalSpent := Billing.totalSpent a;
  Billing.plan := Billing.plan a;
  Billing.lastPurchase := Billing.lastPurchase a;
  Billing.subscriptionStart := Billing.subscriptionStart a;
  Billing.nextBilling := Billing.nextBilling a
|}.

(** [verifyToken], from the token that the [Authorization] header gives;
    [stamp] is the server's time. *)
Definition verifyToken (verifyIdToken : string → TokenOutcome)
    (get_throws set_throws update_throws : bool) (stamp : Z)
    (token : option string) (users : gmap string Billing.Account)
  : AuthResult * gmap string Billing.Account :=
  let invalid := Unauthorized "Invalid token" "Please login again" in
  match truthy token with
  | None =>
      (Unauthorized "Authentication required" "Please provide a valid token",
       users)
  | Some token =>
      match verifyIdToken token with
      | TokenThrows => (invalid, users)
      | TokenOk decodedToken =>
          let user := token_user decodedToken in
          if get_throws then (invalid, users)
          else
            match users !! uid user with
            | None =>
                if set_throws then (invalid, users)
                else (NextWith user,
                      <[uid user := new_account decodedToken stamp]> users)
            | Some a =>
                if update_throws then (invalid, users)
                else (NextWith user,
                      <[uid user := stamp_login stamp a]> users)
            end
      end
  end.

End Auth.

(** * Uploading an asset: [POST /api/upload-asset] *)

Module Assets.

(** [req.file], as multer leaves it. *)
Record UploadedFile := {
  file_path : string;
  originalname : string;
  file_size : Z;
  mimetype : option string
}.

(** A document of the [assets] collection. *)
Record AssetDoc := {
  asset_userId : string;
  asset_userEmail : string;
  originalName : string;
  asset_size : Z;
  asset_type : string;
  mimeType : option string;
  heygenAssetId : option string;
  uploadedAt : Z;
  asset_status : string
}.

(** The answer of the provider's upload endpoint:
    [data.asset_id || data.data?.asset_id], or a rejected call. *)
Inductive UploadOutcome :=
| UploadOk (asset_id : option string)
| UploadThrows (e : JsError).

Record AssetEnv := {
  asset_keys : list string;
  heygen_upload : UploadOutcome;
  assets_add : StoreOutcome;
  asset_stamp : Z
}.

Record AssetState := {
  asset_keyUsage : gmap string nat;
  asset_files : gset string;
  assets : list (string * AssetDoc)
}.

Inductive AssetAnswer :=
| AssetUploaded (assetId : string) (heygenAssetId : option string)
                (originalName : string) (size : Z) (type : string)
| AssetRefused (code : nat) (error : string)
| UploadFailed (code : nat) (details : string).

(** The answer of the [catch] block. *)
Definition asset_catch (error : JsError) : AssetAnswer :=
  match error_response error with
  | Some (code, data) => UploadFailed code data
  | None => AssetRefused 500 "Asset upload failed"
  end.

(** The route after [verifyToken] and multer.  [fs.removeSync] is taken to
    succeed, as in the video route; the [catch] block calls it only for a
    path that is not empty. *)
Definition upload_asset (env : AssetEnv) (user : User)
    (file : option UploadedFile) (type : option string) (s : AssetState)
  : AssetAnswer * AssetState :=
  match file with
  | None => (AssetRefused 400 "No file uploaded", s)
  | Some file =>
      let type := default "image" type in
      let filePath := file_path file in
      let '(apiKey, keyUsageCount') :=
        getNextHeyGenKey (asset_keys env) (asset_keyUsage s) in
      let s1 := {| asset_keyUsage := keyUsageCount';
                   asset_files := asset_files s;
                   assets := assets s |} in
      match truthy apiKey with
      | None => (AssetRefused 503 "No API keys available", s1)
      | Some apiKey =>
          let removed := {| asset_keyUsage := keyUsageCount';
                            asset_files := asset_files s ∖ {[ filePath ]};
                            assets := assets s |} in
          let cleaned := if String.eqb filePath "" then s1 else removed in
          match heygen_upload env with
          | UploadThrows e => (asset_catch e, cleaned)
          | UploadOk asset_id =>
              let assetData := {|
                asset_userId := uid user;
                asset_userEmail := email user;
                originalName := originalname file;
                asset_size := file_size file;
                asset_type := type;
                mimeType := mimetype file;
                heygenAssetId := asset_id;
                uploadedAt := asset_stamp env;
                asset_status := "uploaded"
              |} in
              match assets_add env with
              | StoreThrows e => (asset_catch e, removed)
              | StoreOk id =>
                  (AssetUploaded id asset_id (originalname file)
                     (file_size file) type,
                   {| asset_keyUsage := keyUsageCount';
                      asset_files := asset_files s ∖ {[ filePath ]};
                      assets := (assets s ++ [(id, assetData)])%list |})
              end
          end
      end
  end.

End Assets.

(** Alice's token. *)
Definition alice_token : Auth.DecodedToken := {|
  Auth.token_user := alice;
  Auth.token_name := Some "Alice";
  Auth.token_picture := None
|}.

(** An upload that finds no key. *)
Definition portrait_file : Assets.UploadedFile := {|
  Assets.file_path := "uploads/3f2a";
  Assets.originalname := "portrait.png";
  Assets.file_size := 20480;
  Assets.mimetype := Some "image/png"
|}.

Definition asset_env_no_keys : Assets.AssetEnv := {|
  Assets.asset_keys := [];
  Assets.heygen_upload := Assets.UploadOk (Some "asset-1");
  Assets.assets_add := StoreOk "doc-1";
  Assets.asset_stamp := 1700000000
|}.

Definition asset_state : Assets.AssetState := {|
  Assets.asset_keyUsage := ∅;
  Assets.asset_files := {[ "uploads/3f2a" ]};
  Assets.assets := []
|}.

(** * Properties *)

(** ** The credential pool *)

Section PoolFacts.

Variable keys : list string.

Lemma usage_insert_eq (m : gmap string nat) key n :
  usage (<[key := n]> m) key = n.
Proof. unfold usage. by rewrite lookup_insert_eq. Qed.

Lemma usage_insert_ne (m : gmap string nat) key key' n :
  key ≠ key' → usage (<[key := n]> m) key' = usage m key'.
Proof. intros Hne. unfold usage. by rewrite lookup_insert_ne. Qed.

Lemma usage_empty key : usage ∅ key = 0.
Proof. unfold usage. by rewrite lookup_empty. Qed.

(** A key that passes the test has fewer than 10 uses. *)
Lemma below_quota_usage (m : gmap string nat) key :
  below_quota m key = true → usage m key < KEY_QUOTA.
Proof.
  unfold below_quota, usage. destruct (m !! key) as [n|]; simpl.
  - by intros ?%Nat.ltb_lt.
  - intros _. unfold KEY_QUOTA. lia.
Qed.

(** For a name that is not inherited the test is the comparison of the
    count. *)
Lemma below_quota_plain (m : gmap string nat) key :
  inherited key = false → below_quota m key = (usage m key <? KEY_QUOTA).
Proof.
  intros Hplain. unfold below_quota, usage.
  destruct (m !! key) as [n|]; simpl; [done|]. by rewrite Hplain.
Qed.

Lemma at_quota_fails (m : gmap string nat) key :
  KEY_QUOTA ≤ usage m key → below_quota m key = false.
Proof.
  intros Hge. destruct (below_quota m key) eqn:Htest; [|done].
  apply below_quota_usage in Htest. lia.
Qed.

Lemma reset_counters_plain first rest :
  inherited first = false → reset_counters (first :: rest) = {[ first := 1 ]}.
Proof.
  intros Hplain. unfold reset_counters. cbn [first_key_property].
  destruct (String.eqb_spec first "__proto__") as [->|]; [discriminate|done].
Qed.

(** The scan picks the first key below quota. *)
Lemma scan_keys_first (m : gmap string nat) :
  ∀ l i key,
    l !! i = Some key →
    inherited key = false →
    usage m key < KEY_QUOTA →
    (∀ j key', j < i → l !! j = Some key' → KEY_QUOTA ≤ usage m key') →
    scan_keys l m = Some (key, <[key := usage m key + 1]> m).
Proof.
  induction l as [|k l IH]; intros i key Hi Hplain Hlt Hbefore; [done|].
  destruct i as [|i]; simpl in *.
  - injection Hi as ->. rewrite below_quota_plain by done.
    destruct (Nat.ltb_spec (usage m key) KEY_QUOTA); [done | lia].
  - rewrite at_quota_fails by (apply (Hbefore 0); [lia | done]).
    apply (IH i); [done | done | done |].
    intros j key' Hj Hl. apply (Hbefore (S j)); [lia | done].
Qed.

(** The scan finds nothing when every key is at quota. *)
Lemma scan_keys_none (m : gmap string nat) :
  ∀ l, (∀ key, key ∈ l → KEY_QUOTA ≤ usage m key) → scan_keys l m = None.
Proof.
  induction l as [|k l IH]; intros Hall; [done|]. simpl.
  rewrite at_quota_fails by (apply Hall; left).
  apply IH. intros key Hin. apply Hall. by right.
Qed.

(** A scan that finds nothing met only keys at quota. *)
Lemma scan_keys_none_inv (m : gmap string nat) :
  ∀ l, plain_names l →
       scan_keys l m = None → ∀ key, key ∈ l → KEY_QUOTA ≤ usage m key.
Proof.
  induction l as [|k l IH]; intros Hplain Hscan key Hin.
  - by apply elem_of_nil in Hin.
  - simpl in Hscan. rewrite below_quota_plain in Hscan by (apply Hplain; left).
    destruct (Nat.ltb_spec (usage m k) KEY_QUOTA) as [Hlt|Hge]; [done|].
    apply elem_of_cons in Hin as [->|Hin]; [done|].
    apply IH; [|done|done]. intros key' Hin'. apply Hplain. by right.
Qed.

(** What a successful scan returned, for every pool. *)
Lemma scan_keys_pick (m : gmap string nat) :
  ∀ l key m',
    scan_keys l m = Some (key, m') →
    key ∈ l ∧ usage m key < KEY_QUOTA ∧ m' = <[key := usage m key + 1]> m.
Proof.
  induction l as [|k l IH]; intros key m' Hscan; [done|]. simpl in Hscan.
  destruct (below_quota m k) eqn:Htest.
  - injection Hscan as <- <-. split_and!; [left | | done].
    by apply below_quota_usage.
  - destruct (IH _ _ Hscan) as (Hin & Hlt & ->). split_and!; [by right|done|done].
Qed.

(** What a successful scan returned, with its position in the pool. *)
Lemma scan_keys_some (m : gmap string nat) :
  ∀ l key m',
    plain_names l →
    scan_keys l m = Some (key, m') →
    ∃ i, l !! i = Some key ∧ usage m key < KEY_QUOTA
         ∧ (∀ j key', j < i → l !! j = Some key' → KEY_QUOTA ≤ usage m key')
         ∧ m' = <[key := usage m key + 1]> m.
Proof.
  induction l as [|k l IH]; intros key m' Hplain Hscan; [done|].
  simpl in Hscan. rewrite below_quota_plain in Hscan by (apply Hplain; left).
  destruct (Nat.ltb_spec (usage m k) KEY_QUOTA) as [Hlt|Hge].
  - injection Hscan as <- <-. exists 0. split_and!; [done | done | | done].
    intros j key' Hj. lia.
  - assert (plain_names l) as Hplain'
      by (intros key' Hin'; apply Hplain; by right).
    destruct (IH _ _ Hplain' Hscan) as (i & Hi & Hlt & Hbefore & ->).
    exists (S i). split_and!; [done | done | | done].
    intros [|j] key' Hj Hl; simpl in Hl.
    + by injection Hl as <-.
    + apply (Hbefore j); [lia | done].
Qed.

Lemma filled_empty : filled keys 0 ∅.
Proof. intros i key _. rewrite usage_empty. lia. Qed.

Lemma filled_step k m :
  NoDup keys →
  plain_names keys →
  filled keys k m →
  k < length keys * KEY_QUOTA →
  ∃ i key, keys !! i = Some key ∧ KEY_QUOTA * i ≤ k < KEY_QUOTA * S i
    ∧ getNextHeyGenKey keys m = (Some key, <[key := usage m key + 1]> m)
    ∧ filled keys (S k) (<[key := usage m key + 1]> m).
Proof.
  intros Hnd Hplain Hfill Hk.
  assert (0 < KEY_QUOTA) as Hq by (destruct KEY_QUOTA; lia).
  pose proof (Nat.div_mod_eq k KEY_QUOTA) as Hdm.
  pose proof (Nat.mod_upper_bound k KEY_QUOTA ltac:(lia)) as Hmod.
  set (i0 := k `div` KEY_QUOTA) in *. set (r := k `mod` KEY_QUOTA) in *.
  assert (i0 < length keys) as Hi0 by nia.
  destruct (lookup_lt_is_Some_2 keys i0 Hi0) as [key0 Hkey0].
  assert (usage m key0 = r) as Hu0.
  { rewrite (Hfill _ _ Hkey0). nia. }
  exists i0, key0. split_and!; [done | nia | nia | |].
  - unfold getNextHeyGenKey.
    rewrite (scan_keys_first m keys i0 key0); [done | done | | lia |].
    + apply Hplain. by eapply list_elem_of_lookup_2.
    + intros j key' Hj Hl. rewrite (Hfill _ _ Hl). nia.
  - intros i key Hi. destruct (decide (key0 = key)) as [->|Hne].
    + rewrite usage_insert_eq.
      assert (i = i0) as -> by (by eapply NoDup_lookup).
      rewrite Hu0. nia.
    + rewrite usage_insert_ne by done. rewrite (Hfill _ _ Hi).
      assert (i ≠ i0) by (intros ->; congruence).
      destruct (decide (i < i0)); nia.
Qed.

Lemma after_calls_S n (m : gmap string nat) :
  after_calls keys (S n) m = (getNextHeyGenKey keys (after_calls keys n m)).2.
Proof. reflexivity. Qed.

Lemma filled_after_calls k :
  NoDup keys →
  plain_names keys →
  k ≤ length keys * KEY_QUOTA →
  filled keys k (after_calls keys k ∅).
Proof.
  intros Hnd Hplain. induction k as [|k IH]; intros Hk; [apply filled_empty|].
  simpl. destruct (filled_step k _ Hnd Hplain (IH ltac:(lia)) ltac:(lia))
    as (i & key & _ & _ & -> & Hfill). done.
Qed.

(** Whenever some key is below quota, the call returns the first such
    key in pool order and charges it exactly one use. *)
Lemma getNextHeyGenKey_first (m : gmap string nat) i key :
  keys !! i = Some key →
  inherited key = false →
  usage m key < KEY_QUOTA →
  (∀ j key', j < i → keys !! j = Some key' → KEY_QUOTA ≤ usage m key') →
  getNextHeyGenKey keys m = (Some key, <[key := usage m key + 1]> m).
Proof.
  intros Hi Hplain Hlt Hbefore. unfold getNextHeyGenKey.
  by rewrite (scan_keys_first m keys i key).
Qed.

(** When every key is at quota the counters are dropped and the first
    key starts again. *)
Lemma getNextHeyGenKey_rollover (m : gmap string nat) :
  (∀ key, key ∈ keys → KEY_QUOTA ≤ usage m key) →
  getNextHeyGenKey keys m = (head keys, reset_counters keys).
Proof.
  intros Hall. unfold getNextHeyGenKey. by rewrite scan_keys_none.
Qed.

End PoolFacts.

(** A pool of two keys is a pool of plain names when both are. *)
Lemma plain_names_cons key keys :
  inherited key = false → plain_names keys → plain_names (key :: keys).
Proof.
  intros Hkey Hkeys key' [->|Hin]%elem_of_cons; [done | by apply Hkeys].
Qed.

Lemma plain_names_nil : plain_names [].
Proof. intros key Hin. by apply elem_of_nil in Hin. Qed.

(** C4.  A pool of distinct keys [first :: rest], none of them named like a
    member that every object inherits, quota 10 per key, counters starting
    at zero: after [N * 10] calls every key's counter is 10; the next call
    drops all counters and returns the first key with counter 1 (every
    other key reads 0 again); in any state a call that finds a key below
    quota returns the first such key in pool order, its counter one higher
    and every other counter unchanged; and a call returns in no other way
    than these two. *)
Theorem C4_pool_fill_then_rollover (first : string) (rest : list string) :
  let keys := first :: rest in
  let full := after_calls keys (length keys * KEY_QUOTA) ∅ in
  NoDup keys →
  plain_names keys →
  (∀ key, key ∈ keys → usage full key = KEY_QUOTA)
  ∧ nth_call keys (length keys * KEY_QUOTA) ∅ = Some first
  ∧ (∀ key, usage (after_calls keys (S (length keys * KEY_QUOTA)) ∅) key
            = if decide (key = first) then 1 else 0)
  ∧ (∀ (m : gmap string nat) i key,
       keys !! i = Some key →
       usage m key < KEY_QUOTA →
       (∀ j key', j < i → keys !! j = Some key' → KEY_QUOTA ≤ usage m key') →
       (getNextHeyGenKey keys m).1 = Some key
       ∧ usage (getNextHeyGenKey keys m).2 key = usage m key + 1
       ∧ ∀ key', key' ≠ key →
           usage (getNextHeyGenKey keys m).2 key' = usage m key')
  ∧ (∀ (m : gmap string nat) key m',
       getNextHeyGenKey keys m = (Some key, m') →
       (∃ i, keys !! i = Some key ∧ usage m key < KEY_QUOTA
             ∧ (∀ j key', j < i → keys !! j = Some key' →
                          KEY_QUOTA ≤ usage m key')
             ∧ m' = <[key := usage m key + 1]> m)
       ∨ ((∀ key', key' ∈ keys → KEY_QUOTA ≤ usage m key')
          ∧ key = first ∧ m' = {[ first := 1 ]})).
Proof.
  intros keys full Hnd Hplain.
  assert (inherited first = false) as Hfirst by (apply Hplain; left).
  assert (∀ key, key ∈ keys → usage full key = KEY_QUOTA) as Hfull.
  { intros key Hin. apply list_elem_of_lookup in Hin as [i Hi].
    pose proof (lookup_lt_Some _ _ _ Hi) as Hlt. unfold full.
    rewrite (filled_after_calls keys _ Hnd Hplain (Nat.le_refl _) i key Hi).
    nia. }
  assert (getNextHeyGenKey keys full = (Some first, {[ first := 1 ]})) as Hroll.
  { rewrite getNextHeyGenKey_rollover.
    - unfold keys. by rewrite reset_counters_plain.
    - intros key Hin. by rewrite Hfull. }
  split_and!.
  - done.
  - unfold nth_call. fold full. by rewrite Hroll.
  - intros key. rewrite after_calls_S. fold full.
    rewrite Hroll. unfold usage, snd. destruct (decide (key = first)) as [->|Hne].
    + by rewrite lookup_singleton_eq.
    + by rewrite lookup_singleton_ne.
  - intros m i key Hi Hlt Hbefore.
    assert (inherited key = false) as Hkey
      by (apply Hplain; by eapply list_elem_of_lookup_2).
    rewrite (getNextHeyGenKey_first keys m i key Hi Hkey Hlt Hbefore).
    unfold fst, snd. split_and!; [done | apply usage_insert_eq |].
    intros key' Hne. by apply usage_insert_ne.
  - intros m key m'. unfold getNextHeyGenKey.
    destruct (scan_keys keys m) as [[key0 m0]|] eqn:Hscan.
    + intros [= -> ->]. left. by apply scan_keys_some.
    + unfold keys at 2. rewrite reset_counters_plain by done.
      intros [= <- <-]. right. split; [|done].
      by apply scan_keys_none_inv.
Qed.

(** The pool ["k1"; "k2"]: twenty calls fill both keys. *)
Lemma C4_pool_fill_then_rollover_witness :
  usage (after_calls ["k1"; "k2"] 20 ∅) "k2" = 10
  ∧ nth_call ["k1"; "k2"] 20 ∅ = Some "k1".
Proof.
  assert (NoDup ["k1"; "k2"]) as Hnd.
  { apply NoDup_cons. split; [|apply NoDup_singleton].
    intros Hin. apply list_elem_of_singleton in Hin. discriminate Hin. }
  assert (plain_names ["k1"; "k2"]) as Hplain.
  { apply plain_names_cons; [reflexivity|].
    apply plain_names_cons; [reflexivity | apply plain_names_nil]. }
  destruct (C4_pool_fill_then_rollover "k1" ["k2"] Hnd Hplain)
    as (Hfull & Hnext & _).
  split; [|exact Hnext].
  apply Hfull. right. left.
Defined.

(** The side condition is needed: a key named [constructor] is passed over
    until the first reset, because the lookup finds the function that
    every object inherits. *)
Lemma inherited_name_is_passed_over :
  nth_call ["constructor"; "k2"] 0 ∅ = Some "k2"
  ∧ nth_call ["constructor"; "k2"] 10 ∅ = Some "constructor"
  ∧ after_calls ["constructor"; "k2"] 11 ∅ = {[ "constructor" := 1 ]}.
Proof. split_and!; vm_compute; reflexivity. Qed.

(** ** Running the handler *)

Lemma poll_loop_spec env apiKey videoId n w :
  poll_loop env apiKey videoId n w =
  {| result := inl (poll_value env n); state := w;
     events := poll_rounds apiKey videoId (poll_count env n) |}.
Proof.
  induction n as [|n IH]; [done|].
  cbn [poll_loop poll_value poll_count].
  unfold mbind, M_bind, emit. cbn [app].
  destruct (poll_try _); [done | by rewrite IH | by rewrite IH].
Qed.

Lemma poll_count_le env n : poll_count env n ≤ n.
Proof.
  induction n as [|n IH]; [done|]. cbn [poll_count].
  destruct (poll_try _); lia.
Qed.

(** Without a [break] the loop uses up what remains of its budget. *)
Lemma poll_never_breaks env n :
  (∀ i, maxAttempts - n ≤ i < maxAttempts →
        ∀ videoUrl, poll_try (status_get env i) ≠ Break videoUrl) →
  n ≤ maxAttempts →
  poll_value env n = None ∧ poll_count env n = n.
Proof.
  intros Hno Hn. induction n as [|n IH]; [done|]. cbn [poll_value poll_count].
  destruct (poll_try _) as [videoUrl| |e] eqn:Htry.
  - exfalso. apply (Hno (maxAttempts - S n) ltac:(lia) videoUrl Htry).
  - destruct IH as [-> ->]; [|lia|done]. intros i Hi. apply Hno. lia.
  - destruct IH as [-> ->]; [|lia|done]. intros i Hi. apply Hno. lia.
Qed.

(** An iteration whose [try] block did not [break] costs one wait, one
    query and one unit of the budget. *)
Lemma poll_loop_continue env apiKey videoId n w :
  (∀ videoUrl,
     poll_try (status_get env (maxAttempts - S n)) ≠ Break videoUrl) →
  poll_loop env apiKey videoId (S n) w =
  {| result := result (poll_loop env apiKey videoId n w);
     state := state (poll_loop env apiKey videoId n w);
     events := Sleep 5000 :: HeyGenStatus apiKey videoId
               :: events (poll_loop env apiKey videoId n w) |}.
Proof.
  intros Hno. cbn [poll_loop]. unfold mbind, M_bind, emit. cbn [app].
  destruct (poll_try _) as [videoUrl| |e]; [by destruct (Hno videoUrl)| |];
    by destruct (poll_loop env apiKey videoId n w).
Qed.

Arguments poll_loop : simpl never.
Arguments poll_value : simpl never.
Arguments poll_count : simpl never.
Arguments poll_rounds : simpl never.
Opaque maxAttempts.

Lemma commits_poll_rounds e k v n t :
  is_commit e = false →
  commits (e :: poll_rounds k v n ++ t) = commits t.
Proof.
  intros He. unfold commits. cbn [List.filter]. rewrite He.
  induction n as [|n IH]; [done|]. exact IH.
Qed.

Lemma polls_poll_rounds e k v n t :
  is_status_query e = false →
  polls (e :: poll_rounds k v n ++ t) = n + polls t.
Proof.
  intros He. unfold polls. cbn [List.filter]. rewrite He.
  induction n as [|n IH]; [done|].
  change (poll_rounds k v (S n) ++ t)%list
    with (Sleep 5000 :: HeyGenStatus k v :: (poll_rounds k v n ++ t)%list).
  cbn [List.filter is_status_query length]. rewrite IH. lia.
Qed.

Lemma waited_poll_rounds k v n t :
  waited (poll_rounds k v n ++ t) = (5000 * Z.of_nat n + waited t)%Z.
Proof.
  induction n as [|n IH]; [done|].
  change (waited (poll_rounds k v (S n) ++ t))
    with (5000 + waited (poll_rounds k v n ++ t))%Z.
  rewrite IH. lia.
Qed.

Lemma waited_submit_poll_rounds key d a s vo k v n t :
  waited (HeyGenGenerate key d a s vo :: poll_rounds k v n ++ t)
  = (5000 * Z.of_nat n + waited t)%Z.
Proof. apply waited_poll_rounds. Qed.

Lemma submitted_poll_rounds key d a s vo k v n t :
  submitted (HeyGenGenerate key d a s vo :: poll_rounds k v n ++ t)
  = d :: submitted t.
Proof. cbn [submitted]. f_equal. induction n as [|n IH]; [done|]. exact IH. Qed.

Lemma removed_poll_rounds key d a s vo k v n t :
  removed (HeyGenGenerate key d a s vo :: poll_rounds k v n ++ t) = removed t.
Proof. cbn [removed]. induction n as [|n IH]; [done|]. exact IH. Qed.

Lemma downloading_poll_rounds key d a s vo k v n t :
  downloading (HeyGenGenerate key d a s vo :: poll_rounds k v n ++ t)
  = downloading t.
Proof.
  unfold downloading. cbn [existsb is_download orb].
  induction n as [|n IH]; [done|]. exact IH.
Qed.

Arguments waited : simpl never.
Arguments submitted : simpl never.
Arguments removed : simpl never.
Arguments commits : simpl never.
Arguments polls : simpl never.
Arguments downloading : simpl never.

(** The [catch] block never sends the success answer. *)
Lemma succeeded_catch e : succeeded (handler_catch e) = false.
Proof. unfold handler_catch. by destruct (error_response e) as [[]|]. Qed.

(** Symbolic execution of the handler: unfold the steps, then split on the
    next answer of the outside world. *)
Ltac unfold_steps :=
  repeat (progress (unfold mbind, M_bind, acquire_key, heygen_generate,
    download_video, removeWatermark, uploadToCatbox, the_user, storeVideoUrl,
    update_usage, removeSync, emit, create_file, delete_file, add_video,
    write_users, modify, respond, throw, mret, M_ret, answer; simpl)).

Ltac next_answer :=
  match goal with
  | |- context [match truthy ?x with _ => _ end] =>
      destruct (truthy x) eqn:?
  | |- context [getNextHeyGenKey ?a ?b] =>
      destruct (getNextHeyGenKey a b) eqn:?
  | |- context [match submit ?e with _ => _ end] =>
      destruct (submit e) eqn:?
  | |- context [poll_loop _ _ _ _ _] => rewrite poll_loop_spec
  | |- context [match download ?e with _ => _ end] =>
      destruct (download e) as [| |? []] eqn:?
  | |- context [match ffmpeg ?e with _ => _ end] =>
      destruct (ffmpeg e) as [|? []] eqn:?
  | |- context [match catbox ?e with _ => _ end] =>
      destruct (catbox e) eqn:?
  | |- context [match req_user ?e with _ => _ end] =>
      destruct (req_user e) eqn:?
  | |- context [match videos_set ?e with _ => _ end] =>
      destruct (videos_set e) eqn:?
  end; unfold_steps.

Ltac pad_poll_rounds :=
  lazymatch goal with
  | |- context [(poll_rounds _ _ _ ++ _)%list] => idtac
  | |- context [poll_rounds ?k ?v ?n] =>
      rewrite <- (app_nil_r (poll_rounds k v n))
  | _ => idtac
  end.

Ltac trace_simpl :=
  pad_poll_rounds;
  rewrite ?commits_poll_rounds, ?polls_poll_rounds,
    ?waited_submit_poll_rounds, ?submitted_poll_rounds, ?removed_poll_rounds,
    ?downloading_poll_rounds by reflexivity.

(** ** The ledger and the pipeline's exits *)

(** C3.  In every run, whatever the outside world answers:
    [updateUsage(uid, 'video')] is called exactly once when the run ends
    with the success answer, and is not called at all when the run ends
    with any other answer; in that case the [users] collection, and so
    every account's [credits], is as before the run. *)
Theorem C3_debit_once_on_success_never_on_failure env req w :
  let run := generate_video env req w in
  (succeeded (response run) = true → commits (trace run) = 1)
  ∧ (succeeded (response run) = false →
       commits (trace run) = 0 ∧ users (final run) = users w).
Proof.
  unfold generate_video.
  destruct (checkVideoLimits _ _ _); try (simpl; split; [discriminate | done]).
  unfold handler, handler_try. unfold_steps.
  repeat (next_answer; rewrite ?succeeded_catch;
          try (split; [discriminate | intros _; trace_simpl; done])).
  split; [intros _; trace_simpl; done | discriminate].
Qed.

(** The run in which the provider completes on the third query succeeds
    and commits once. *)
Lemma C3_debit_once_on_success_never_on_failure_witness :
  commits (trace (generate_video (env_with completes_third) request
                    (world_with 25))) = 1.
Proof.
  apply (C3_debit_once_on_success_never_on_failure
           (env_with completes_third) request (world_with 25)).
  vm_compute. reflexivity.
Defined.

(** The handler never sends the insufficient-credits body. *)
Lemma handler_not_insufficient env req w c n o :
  body (response (handler env req w)) ≠ InsufficientCreditsBody c n o.
Proof.
  unfold handler, handler_try. unfold_steps.
  repeat (next_answer; try discriminate).
  all: unfold handler_catch; destruct (error_response _) as [[]|]; discriminate.
Qed.

(** C7.  For an authenticated request whose user document can be read,
    the route answers 403 with the insufficient-credits body exactly when
    [userData?.credits || 0] is below 20; the body then carries the
    balance, the 20 credits needed and the purchase options, and the run
    has done nothing: the world (key counters, users, videos, files) is
    as before and no call was made. *)
Theorem C7_insufficient_credits_iff_below_20 env req w user :
  req_user req = Some user →
  users_get_throws env = false →
  let run := generate_video env req w in
  let balance := userCredits (users w) (uid user) in
  ((balance < 20)%Z ↔
     ∃ c n o, response run
              = {| status := 403; body := InsufficientCreditsBody c n o |})
  ∧ ((balance < 20)%Z →
       response run
       = {| status := 403;
            body := InsufficientCreditsBody balance 20 upgradeOptions |}
       ∧ final run = w
       ∧ trace run = []).
Proof.
  intros Huser Hget run balance. subst run.
  unfold generate_video, checkVideoLimits. rewrite Huser, Hget. fold balance.
  unfold CREDITS_PER_VIDEO.
  destruct (Z.ltb_spec balance 20) as [Hlt|Hge].
  - split; [|done]. split; [|done]. intros _. by eexists _, _, _.
  - split; [|lia]. split; [lia|]. intros (c & n & o & Hresp).
    exfalso. apply (handler_not_insufficient env req w c n o).
    by rewrite Hresp.
Qed.

(** Alice has 10 credits: 403 with balance 10, nothing touched. *)
Lemma C7_insufficient_credits_iff_below_20_witness :
  let run := generate_video (env_with completes_third) request (world_with 10) in
  response run
  = {| status := 403; body := InsufficientCreditsBody 10 20 upgradeOptions |}
  ∧ final run = world_with 10
  ∧ trace run = [].
Proof.
  apply (C7_insufficient_credits_iff_below_20
           (env_with completes_third) request (world_with 10) alice
           eq_refl eq_refl).
  vm_compute. reflexivity.
Defined.

(** The three counters after a commit. *)
Lemma video_update_counters ts d :
  credits (video_update ts d) = Some (or_zero (credits d) - 20)%Z
  ∧ creditsUsed (video_update ts d) = Some (or_zero (creditsUsed d) + 20)%Z
  ∧ videosGenerated (video_update ts d)
    = Some (or_zero (videosGenerated d) + 1)%Z
  ∧ scriptsGenerated (video_update ts d) = scriptsGenerated d
  ∧ lastScriptGenerated (video_update ts d) = lastScriptGenerated d
  ∧ lastVideoGenerated (video_update ts d) = Some ts.
Proof. done. Qed.

(** C8.  A run that ends with the success answer, and whose Firestore
    update goes through, changes the user's document by exactly these
    counters: [credits] 20 lower, [creditsUsed] 20 higher,
    [videosGenerated] one higher (the update also stamps
    [lastVideoGenerated]); no other user document changes; exactly one
    document is added to [videos]; the commit was called once.  An account
    with 25 credits ends with 5. *)
Theorem C8_commit_changes_the_account env req w user :
  req_user req = Some user →
  users_update_throws env = false →
  let run := generate_video env req w in
  succeeded (response run) = true →
  ∃ d docId record,
    users w !! uid user = Some d
    ∧ users (final run)
      = <[uid user := video_update (serverTimestamp env) d]> (users w)
    ∧ credits (video_update (serverTimestamp env) d)
      = Some (or_zero (credits d) - 20)%Z
    ∧ creditsUsed (video_update (serverTimestamp env) d)
      = Some (or_zero (creditsUsed d) + 20)%Z
    ∧ videosGenerated (video_update (serverTimestamp env) d)
      = Some (or_zero (videosGenerated d) + 1)%Z
    ∧ (credits d = Some 25%Z →
       credits (video_update (serverTimestamp env) d) = Some 5%Z)
    ∧ videos (final run) = (videos w ++ [(docId, record)])%list
    ∧ commits (trace run) = 1.
Proof.
  intros Huser Hupd run. subst run. unfold generate_video.
  destruct (checkVideoLimits _ _ _) eqn:Hcheck; try discriminate.
  assert (∃ d, users w !! uid user = Some d) as [d Hd].
  { unfold checkVideoLimits in Hcheck. rewrite Huser in Hcheck.
    destruct (users_get_throws env); [discriminate|].
    unfold userCredits in Hcheck.
    destruct (users w !! uid user) as [d|]; [by exists d | discriminate]. }
  unfold handler, handler_try. unfold_steps. rewrite Huser.
  repeat (next_answer; rewrite ?succeeded_catch; try discriminate).
  intros _. eexists d, _, _.
  split_and!; try done.
  - rewrite Hupd. unfold updateUsage, firestore_update. simpl. by rewrite Hd.
  - simpl. by intros ->.
  - by trace_simpl.
Qed.

(** 25 credits, the provider completes on the third query: Alice ends
    with 5 credits, one video generated and one stored record. *)
Lemma C8_commit_changes_the_account_witness :
  let run := generate_video (env_with completes_third) request (world_with 25) in
  ∃ d docId record,
    users (world_with 25) !! "alice" = Some d
    ∧ users (final run) = <[ "alice" := video_update 1700000000 d ]>
                            (users (world_with 25))
    ∧ credits (video_update 1700000000 d) = Some (or_zero (credits d) - 20)%Z
    ∧ creditsUsed (video_update 1700000000 d)
      = Some (or_zero (creditsUsed d) + 20)%Z
    ∧ videosGenerated (video_update 1700000000 d)
      = Some (or_zero (videosGenerated d) + 1)%Z
    ∧ (credits d = Some 25%Z →
       credits (video_update 1700000000 d) = Some 5%Z)
    ∧ videos (final run) = ([] ++ [(docId, record)])%list
    ∧ commits (trace run) = 1.
Proof.
  apply (C8_commit_changes_the_account
           (env_with completes_third) request (world_with 25) alice
           eq_refl eq_refl).
  vm_compute. reflexivity.
Defined.

(** ** The poll loop *)

(** A ['failed'] status ends the [try] block in its own [catch]. *)
Lemma poll_try_failed video_url :
  poll_try (PollOk "failed" video_url)
  = Caught (Error "HeyGen video generation failed").
Proof. reflexivity. Qed.

(** So an iteration that is answered ['failed'] is followed by the rest of
    the loop, like an iteration whose query failed. *)
Lemma failed_status_keeps_polling env apiKey videoId n w video_url :
  status_get env (maxAttempts - S n) = PollOk "failed" video_url →
  poll_loop env apiKey videoId (S n) w =
  {| result := result (poll_loop env apiKey videoId n w);
     state := state (poll_loop env apiKey videoId n w);
     events := Sleep 5000 :: HeyGenStatus apiKey videoId
               :: events (poll_loop env apiKey videoId n w) |}.
Proof.
  intros Hget. apply poll_loop_continue. intros videoUrl.
  by rewrite Hget, poll_try_failed.
Qed.

(** C1 (the code departs from the claim).  The provider answers ['failed']
    to every status query: the run does not stop at the first answer, it
    sends all 60 queries and ends with the 408 timeout answer.  The
    provider answers ['failed'] once and ['completed'] next: the run goes
    on to the second query, succeeds and debits Alice's 25 credits to 5. *)
Theorem C1_failed_status_is_swallowed :
  let stuck := generate_video (env_with (λ _, failed)) request (world_with 25) in
  let recovered :=
    generate_video (env_with fails_then_completes) request (world_with 25) in
  response stuck
  = {| status := 408; body := ErrorBody "Video generation timeout" |}
  ∧ polls (trace stuck) = 60
  ∧ users (final stuck) = users (world_with 25)
  ∧ response recovered
    = {| status := 200;
         body := SuccessBody "doc-1" "https://files.catbox.moe/abc.mp4" |}
  ∧ polls (trace recovered) = 2
  ∧ (users (final recovered) !! "alice") ≫= credits = Some 5%Z.
Proof. vm_compute. repeat split. Qed.

(** C6.  A job has been submitted and no status query among the 60 is
    answered with a terminal status (['completed'] or ['failed']; queries
    may fail): the run waits 5 seconds before each of exactly 60 queries,
    makes no other call, and answers 408.  In every run at most 60 queries
    are sent.  An iteration whose query throws costs one wait, one query
    and one unit of the same budget, which only ever decreases. *)
Theorem C6_poll_loop_is_bounded :
  (∀ env req w video_id,
     submitted (trace (generate_video env req w)) ≠ [] →
     submit env = SubmitOk video_id →
     (∀ n status video_url,
        n < 60 → status_get env n = PollOk status video_url →
        status ≠ "completed" ∧ status ≠ "failed") →
     let run := generate_video env req w in
     response run
     = {| status := 408; body := ErrorBody "Video generation timeout" |}
     ∧ polls (trace run) = 60
     ∧ waited (trace run) = 300000%Z
     ∧ ∃ apiKey dimension avatar script voice,
         trace run = HeyGenGenerate apiKey dimension avatar script voice
                     :: poll_rounds apiKey video_id 60)
  ∧ (∀ env req w, polls (trace (generate_video env req w)) ≤ 60)
  ∧ (∀ env apiKey videoId n w e,
       status_get env (maxAttempts - S n) = PollThrows e →
       poll_loop env apiKey videoId (S n) w =
       {| result := result (poll_loop env apiKey videoId n w);
          state := state (poll_loop env apiKey videoId n w);
          events := Sleep 5000 :: HeyGenStatus apiKey videoId
                    :: events (poll_loop env apiKey videoId n w) |}).
Proof.
  assert (maxAttempts = 60) as Hmax by reflexivity.
  split_and!.
  - intros env req w video_id Hsub Hok Hpending. simpl.
    assert (poll_value env maxAttempts = None
            ∧ poll_count env maxAttempts = maxAttempts) as [Hval Hcount].
    { apply poll_never_breaks; [|done]. intros i Hi videoUrl Htry.
      destruct (status_get env i) as [status video_url|e] eqn:Hget;
        [|discriminate].
      destruct (Hpending i status video_url ltac:(lia) Hget) as [Hc Hf].
      unfold poll_try in Htry.
      destruct (String.eqb_spec status "completed"); [done|].
      by destruct (String.eqb status "failed"). }
    revert Hsub. unfold generate_video.
    destruct (checkVideoLimits _ _ _);
      try (intros Hsub; exfalso; apply Hsub; reflexivity).
    unfold handler, handler_try. unfold_steps.
    repeat (next_answer; rewrite ?Hval, ?Hcount; unfold_steps;
            try (intros Hsub; exfalso; apply Hsub; reflexivity)).
    all: try (exfalso; congruence).
    intros _. rewrite Hmax.
    injection Hok as ->.
    split_and!; [done | by trace_simpl | by trace_simpl |].
    by eexists _, _, _, _, _.
  - intros env req w. unfold generate_video.
    destruct (checkVideoLimits _ _ _); try (unfold polls; simpl; lia).
    unfold handler, handler_try. unfold_steps.
    repeat (next_answer; try (unfold polls; simpl; lia)).
    all: trace_simpl; unfold polls; simpl.
    all: pose proof (poll_count_le env maxAttempts); lia.
  - intros env apiKey videoId n w e Hget. apply poll_loop_continue.
    intros videoUrl. by rewrite Hget.
Qed.

(** The provider answers ['processing'] for ever. *)
Lemma C6_poll_loop_is_bounded_witness :
  let run := generate_video (env_with (λ _, processing)) request (world_with 25) in
  response run
  = {| status := 408; body := ErrorBody "Video generation timeout" |}
  ∧ polls (trace run) = 60
  ∧ waited (trace run) = 300000%Z
  ∧ ∃ apiKey dimension avatar script voice,
      trace run = HeyGenGenerate apiKey dimension avatar script voice
                  :: poll_rounds apiKey "video-1" 60.
Proof.
  apply (proj1 C6_poll_loop_is_bounded
           (env_with (λ _, processing)) request (world_with 25) "video-1").
  - vm_compute. discriminate.
  - reflexivity.
  - intros n status video_url _ [= <- _]. split; discriminate.
Defined.

(** ** Dimensions *)

(** Every job the route submits carries the dimensions chosen at step 2. *)
Lemma submitted_dimensions env req w :
  let chosen := select_dimensions (customDimensions (req_body req))
                  (default "landscape" (orientation (req_body req))) in
  submitted (trace (generate_video env req w)) = []
  ∨ submitted (trace (generate_video env req w)) = [chosen].
Proof.
  unfold generate_video.
  destruct (checkVideoLimits _ _ _); try (by left).
  unfold handler, handler_try. unfold_steps.
  repeat (next_answer; try (left; reflexivity)).
  all: right; by trace_simpl.
Qed.

(** C5.  Without custom dimensions, ['landscape'] gives 1280x720,
    ['portrait'] 720x1280 and ['square'] 1080x1080; custom dimensions are
    used as they are, whatever the orientation; and a job submitted to
    the provider carries exactly the dimensions so chosen. *)
Theorem C5_dimension_table_and_override :
  select_dimensions None "landscape" = {| width := 1280; height := 720 |}
  ∧ select_dimensions None "portrait" = {| width := 720; height := 1280 |}
  ∧ select_dimensions None "square" = {| width := 1080; height := 1080 |}
  ∧ (∀ custom orientation, select_dimensions (Some custom) orientation = custom)
  ∧ (∀ env req w,
       submitted (trace (generate_video env req w)) = []
       ∨ submitted (trace (generate_video env req w))
         = [select_dimensions (customDimensions (req_body req))
              (default "landscape" (orientation (req_body req)))]).
Proof.
  split_and!; [reflexivity | reflexivity | reflexivity | reflexivity |].
  intros env req w. apply submitted_dimensions.
Qed.

(** The handler's answer does not look at the orientation. *)
Lemma response_ignores_orientation env req w o :
  response (generate_video env (with_orientation o req) w)
  = response (generate_video env req w).
Proof.
  unfold generate_video. cbn [with_orientation req_user].
  destruct (checkVideoLimits _ _ _); [reflexivity | reflexivity | reflexivity |].
  unfold handler, handler_try. cbn [with_orientation req_user req_body
    script avatar voice orientation customDimensions templateId customAssets].
  unfold_steps.
  repeat (next_answer; try reflexivity).
Qed.

(** C10.  Without custom dimensions every orientation other than
    ['portrait'] and ['square'], an omitted one included, gives 1280x720;
    in particular ['custom'] does.  Changing the orientation of a request
    never changes the answer it gets, so no value is rejected. *)
Theorem C10_other_orientations_are_landscape :
  (∀ o : option string,
     o ≠ Some "portrait" → o ≠ Some "square" →
     select_dimensions None (default "landscape" o)
     = {| width := 1280; height := 720 |})
  ∧ (∀ env req w o,
       response (generate_video env (with_orientation o req) w)
       = response (generate_video env req w))
  ∧ (∀ env req w o,
       customDimensions (req_body req) = None →
       o ≠ Some "portrait" → o ≠ Some "square" →
       submitted (trace (generate_video env (with_orientation o req) w)) = []
       ∨ submitted (trace (generate_video env (with_orientation o req) w))
         = [{| width := 1280; height := 720 |}]).
Proof.
  assert (∀ o : option string,
            o ≠ Some "portrait" → o ≠ Some "square" →
            select_dimensions None (default "landscape" o)
            = {| width := 1280; height := 720 |}) as Htable.
  { intros [s|] Hp Hs; [|reflexivity]. unfold select_dimensions. simpl.
    destruct (String.eqb_spec s "portrait") as [->|_]; [done|].
    destruct (String.eqb_spec s "square") as [->|_]; [done|].
    reflexivity. }
  split_and!.
  - exact Htable.
  - intros env req w o. apply response_ignores_orientation.
  - intros env req w o Hcustom Hp Hs.
    destruct (submitted_dimensions env (with_orientation o req) w) as [H|H];
      [by left | right].
    rewrite H. cbn [with_orientation req_body customDimensions orientation].
    rewrite Hcustom. by rewrite Htable.
Qed.

(** The orientation ['custom'] without custom dimensions. *)
Lemma C10_other_orientations_are_landscape_witness :
  select_dimensions None (default "landscape" (Some "custom"))
  = {| width := 1280; height := 720 |}.
Proof.
  apply (proj1 C10_other_orientations_are_landscape (Some "custom"));
    discriminate.
Defined.

(** ** Scratch files *)

(** A run that does not end with the success answer never calls
    [fs.removeSync], and every file that was there before is there
    after. *)
Lemma failed_run_removes_nothing env req w :
  let run := generate_video env req w in
  succeeded (response run) = false →
  removed (trace run) = [] ∧ files w ⊆ files (final run).
Proof.
  cbv zeta. unfold generate_video.
  destruct (checkVideoLimits _ _ _); try (intros _; split; reflexivity).
  unfold handler, handler_try. unfold_steps.
  repeat (next_answer; rewrite ?succeeded_catch;
          try (intros _; split; [by trace_simpl|];
               try reflexivity;
               repeat (etrans; [|apply union_subseteq_r]); reflexivity)).
  discriminate.
Qed.

(** C2.  The claim does not hold of the code, by a defect of the handler.
    The files are removed in step 8 of the [try] block only; the [catch]
    block removes nothing.  When the upload to the file host fails, the run
    answers 500, no [fs.removeSync] has been called and both scratch files,
    [output/temp-1111.mp4] and [output/clean-2222.mp4], are still there.
    So it is on every path that does not end with the success answer:
    nothing is removed.  And [removeWatermark] itself, on a successful
    crop, leaves the raw file where it was. *)
Theorem C2_scratch_files_left_behind :
  let run := generate_video env_upload_fails request (world_with 25) in
  let crop := removeWatermark env_upload_fails
                (tempVideoPath env_upload_fails)
                (cleanVideoPath env_upload_fails) world_downloaded in
  response run
  = {| status := 500;
       body := ErrorMessageBody "Internal server error"
                 "Failed to upload video to Catbox" |}
  ∧ tempVideoPath env_upload_fails = "output/temp-1111.mp4"
  ∧ cleanVideoPath env_upload_fails = "output/clean-2222.mp4"
  ∧ files (final run) = {[ "output/temp-1111.mp4"; "output/clean-2222.mp4" ]}
  ∧ removed (trace run) = []
  ∧ result crop = inl (cleanVideoPath env_upload_fails)
  ∧ tempVideoPath env_upload_fails ∈ files (state crop)
  ∧ (∀ env req w,
       succeeded (response (generate_video env req w)) = false →
       removed (trace (generate_video env req w)) = []
       ∧ files w ⊆ files (final (generate_video env req w))).
Proof.
  split_and!.
  8: intros env req w; apply failed_run_removes_nothing.
  all: vm_compute; reflexivity.
Qed.

(** [removeWatermark] deletes nothing. *)
Lemma removeWatermark_keeps_files env inputPath outputPath w :
  files w ⊆ files (state (removeWatermark env inputPath outputPath w))
  ∧ removed (events (removeWatermark env inputPath outputPath w)) = [].
Proof.
  unfold removeWatermark. unfold_steps.
  destruct (ffmpeg env) as [|e []]; unfold_steps; split;
    try reflexivity; apply union_subseteq_r.
Qed.

(** What the code does guarantee.  A run that ends with the success
    answer has called [fs.removeSync] on the raw file and on the cropped
    file, in this order and after the commit, and neither exists when it
    returns.  A run that never starts the download (rejected at preflight,
    missing fields, no key, submission error, poll timeout) leaves the
    scratch directory as it was.  [removeWatermark] deletes no file,
    whether the crop succeeds or fails. *)
Lemma scratch_files_removed_on_success env req w :
  let run := generate_video env req w in
  (succeeded (response run) = true →
     (tempVideoPath env ∉ files (final run))
     ∧ (cleanVideoPath env ∉ files (final run))
     ∧ removed (trace run) = [tempVideoPath env; cleanVideoPath env]
     ∧ ∃ before userId,
         trace run = (before ++ [UpdateUsage userId "video";
                                 RemoveSync (tempVideoPath env);
                                 RemoveSync (cleanVideoPath env)])%list)
  ∧ (downloading (trace run) = false → files (final run) = files w)
  ∧ (∀ inputPath outputPath w0,
       files w0 ⊆ files (state (removeWatermark env inputPath outputPath w0))
       ∧ removed (events (removeWatermark env inputPath outputPath w0)) = []).
Proof.
  split_and!; [| |apply removeWatermark_keeps_files].
  - unfold generate_video.
    destruct (checkVideoLimits _ _ _); try discriminate.
    unfold handler, handler_try. unfold_steps.
    repeat (next_answer; rewrite ?succeeded_catch; try discriminate).
    intros _. split_and!; [| | by trace_simpl |].
    + intros [[_ Hne]%elem_of_difference _]%elem_of_difference.
      by apply Hne, elem_of_singleton.
    + intros [_ Hne]%elem_of_difference. by apply Hne, elem_of_singleton.
    + eexists (_ :: _ ++ [_; _; _; _])%list, _. cbn [app].
      rewrite <- app_assoc. reflexivity.
  - unfold generate_video.
    destruct (checkVideoLimits _ _ _); try reflexivity.
    unfold handler, handler_try. unfold_steps.
    repeat (next_answer; try (intros _; reflexivity)).
    all: trace_simpl; discriminate.
Qed.

(** The run in which the provider completes on the third query. *)
Lemma scratch_files_removed_on_success_example :
  let run := generate_video (env_with completes_third) request (world_with 25) in
  files (final run) = ∅
  ∧ removed (trace run) = ["output/temp-1111.mp4"; "output/clean-2222.mp4"].
Proof.
  destruct (proj1 (scratch_files_removed_on_success
                     (env_with completes_third) request (world_with 25)))
    as (_ & _ & Hremoved & _); [vm_compute; reflexivity|].
  split; [vm_compute; reflexivity | exact Hremoved].
Qed.

(** ** Watermark removal *)









Section CropFacts.

Context {Pixel : Type}.

Implicit Types rows : list (list Pixel).





End CropFacts.



(** * Further properties of the code *)

(** ** The credential pool: what a call returns *)

Section PoolSchedule.

Variable keys : list string.

(** The first call on fresh counters. *)
Lemma after_first_call first rest :
  keys = first :: rest →
  inherited first = false →
  getNextHeyGenKey keys ∅ = (Some first, {[ first := 1 ]}).
Proof.
  intros -> Hplain. rewrite (getNextHeyGenKey_first _ ∅ 0 first).
  - rewrite usage_empty. by rewrite insert_empty.
  - reflexivity.
  - exact Hplain.
  - rewrite usage_empty. unfold KEY_QUOTA. lia.
  - intros j key' Hj. lia.
Qed.

(** While the pool is not exhausted, call [k + 1] returns key number
    [k / 10]. *)
Lemma nth_call_first_round k :
  NoDup keys →
  plain_names keys →
  k < length keys * KEY_QUOTA →
  nth_call keys k ∅ = keys !! (k `div` KEY_QUOTA).
Proof.
  intros Hnd Hplain Hk. unfold nth_call.
  destruct (filled_step keys k _ Hnd Hplain
              (filled_after_calls keys k Hnd Hplain ltac:(lia)) Hk)
    as (i & key & Hi & Hrange & -> & _).
  cbn [fst]. rewrite <- Hi. f_equal.
  apply (Nat.div_unique k KEY_QUOTA i (k - KEY_QUOTA * i)); lia.
Qed.

(** The call on a pool that is full. *)
Lemma full_pool_resets first rest :
  keys = first :: rest →
  NoDup keys →
  plain_names keys →
  getNextHeyGenKey keys (after_calls keys (length keys * KEY_QUOTA) ∅)
  = (Some first, {[ first := 1 ]}).
Proof.
  intros Hkeys Hnd Hplain. rewrite getNextHeyGenKey_rollover.
  - rewrite Hkeys. rewrite reset_counters_plain; [done|].
    apply Hplain. rewrite Hkeys. left.
  - intros key [i Hi]%list_elem_of_lookup.
    pose proof (lookup_lt_Some _ _ _ Hi) as Hlt.
    rewrite (filled_after_calls keys _ Hnd Hplain (Nat.le_refl _) i key Hi).
    nia.
Qed.

(** One more call than the pool holds brings the counters back to where
    they were after the first call. *)
Lemma after_calls_period first rest j :
  keys = first :: rest →
  NoDup keys →
  plain_names keys →
  after_calls keys (length keys * KEY_QUOTA + S j) ∅ = after_calls keys (S j) ∅.
Proof.
  intros Hkeys Hnd Hplain.
  assert (inherited first = false) as Hfirst
    by (apply Hplain; rewrite Hkeys; left).
  induction j as [|j IH].
  - rewrite Nat.add_1_r, !after_calls_S. cbn [after_calls].
    rewrite (after_first_call first rest Hkeys Hfirst).
    by rewrite (full_pool_resets first rest Hkeys Hnd Hplain).
  - rewrite Nat.add_succ_r, (after_calls_S keys (S j)), after_calls_S.
    by rewrite IH.
Qed.

Lemma nth_call_period first rest k :
  keys = first :: rest →
  NoDup keys →
  plain_names keys →
  nth_call keys (length keys * KEY_QUOTA + k) ∅ = nth_call keys k ∅.
Proof.
  intros Hkeys Hnd Hplain.
  assert (inherited first = false) as Hfirst
    by (apply Hplain; rewrite Hkeys; left).
  unfold nth_call. destruct k as [|k].
  - rewrite Nat.add_0_r. cbn [after_calls].
    rewrite (after_first_call first rest Hkeys Hfirst).
    by rewrite (full_pool_resets first rest Hkeys Hnd Hplain).
  - by rewrite (after_calls_period first rest k Hkeys Hnd Hplain).
Qed.

End PoolSchedule.

(** X1.  [getNextHeyGenKey] returns [undefined] exactly when the pool is
    empty, and a key it returns is a key of the pool. *)
Theorem pool_returns_a_pool_key (keys : list string) (m : gmap string nat) :
  ((getNextHeyGenKey keys m).1 = None ↔ keys = [])
  ∧ (∀ key, (getNextHeyGenKey keys m).1 = Some key → key ∈ keys).
Proof.
  unfold getNextHeyGenKey.
  destruct (scan_keys keys m) as [[key0 m0]|] eqn:Hscan; cbn [fst].
  - apply scan_keys_pick in Hscan as (Hin & _).
    split.
    + split; [discriminate|]. intros ->. by apply elem_of_nil in Hin.
    + by intros key [= <-].
  - split.
    + destruct keys; [done|]. split; discriminate.
    + intros key Hhead. destruct keys as [|k l]; [discriminate|].
      injection Hhead as ->. left.
Qed.

(** X2.  Counters that are at most 10 stay at most 10 under any number of
    calls, for every pool (duplicates and the empty pool included). *)
Theorem pool_counters_stay_bounded (keys : list string) (m : gmap string nat) :
  (∀ key, usage m key ≤ KEY_QUOTA) →
  ∀ n key, usage (after_calls keys n m) key ≤ KEY_QUOTA.
Proof.
  intros Hm n. induction n as [|n IH]; [done|].
  intros key. rewrite after_calls_S. unfold getNextHeyGenKey.
  destruct (scan_keys keys (after_calls keys n m)) as [[key0 m0]|] eqn:Hscan;
    cbn [snd].
  - apply scan_keys_pick in Hscan as (_ & Hlt & ->).
    destruct (decide (key0 = key)) as [->|Hne].
    + rewrite usage_insert_eq. lia.
    + rewrite usage_insert_ne by done. apply IH.
  - unfold usage, reset_counters.
    destruct (String.eqb _ "__proto__").
    + rewrite lookup_empty. simpl. lia.
    + destruct (decide (first_key_property keys = key)) as [->|Hne].
      * rewrite lookup_singleton_eq. unfold KEY_QUOTA. simpl. lia.
      * rewrite lookup_singleton_ne by done. simpl. lia.
Qed.

Lemma pool_counters_stay_bounded_witness :
  usage (after_calls ["k1"; "k1"; "k2"] 35 ∅) "k1" ≤ KEY_QUOTA.
Proof.
  apply (pool_counters_stay_bounded ["k1"; "k1"; "k2"] ∅).
  intros key. rewrite usage_empty. apply Nat.le_0_l.
Defined.

(** X3.  On fresh counters a pool of [N] distinct keys, none of them named
    like a member that every object inherits, is served round robin in
    blocks of 10: call number [k + 1] returns key number
    [(k mod (10 * N)) / 10], for every [k]. *)
Theorem pool_round_robin_schedule (first : string) (rest : list string) (k : nat) :
  let keys := first :: rest in
  NoDup keys →
  plain_names keys →
  nth_call keys k ∅
  = keys !! ((k `mod` (length keys * KEY_QUOTA)) `div` KEY_QUOTA).
Proof.
  intros keys Hnd Hplain.
  set (period := length keys * KEY_QUOTA).
  assert (0 < period) as Hperiod
    by (unfold period, keys, KEY_QUOTA; cbn [length]; lia).
  assert (∀ q r, nth_call keys (q * period + r) ∅ = nth_call keys r ∅) as Hq.
  { induction q as [|q IH]; intros r; [done|].
    replace (S q * period + r) with (period + (q * period + r)) by lia.
    unfold period at 1.
    rewrite (nth_call_period keys first rest _ eq_refl Hnd Hplain). apply IH. }
  rewrite (Nat.div_mod_eq k period) at 1.
  rewrite (Nat.mul_comm period), Hq.
  apply nth_call_first_round; [done|done|].
  apply Nat.mod_upper_bound. lia.
Qed.

Lemma pool_round_robin_schedule_witness :
  nth_call ["k1"; "k2"] 31 ∅ = Some "k2".
Proof.
  exact (pool_round_robin_schedule "k1" ["k2"] 31
           ltac:(apply NoDup_cons; split;
                   [intros Hin; apply list_elem_of_singleton in Hin;
                    discriminate Hin
                   | apply NoDup_singleton])
           ltac:(apply plain_names_cons; [reflexivity|];
                 apply plain_names_cons;
                   [reflexivity | apply plain_names_nil])).
Defined.

(** ** The ledger: usage updates *)

(** X4.  [updateUsage], for every type and whether or not the store
    accepts the update: creates no document, touches no document but the
    user's own, and keeps [credits + creditsUsed] of every document as it
    was; only the type ['video'] can change [credits]. *)
Theorem updateUsage_conserves_credits (users : gmap string UserDoc)
    (update_throws : bool) (stamp : Z) (userId type : string) :
  let users' := updateUsage users update_throws stamp userId type in
  dom users' = dom users
  ∧ (∀ other, other ≠ userId → users' !! other = users !! other)
  ∧ (∀ uid d', users' !! uid = Some d' →
       ∃ d, users !! uid = Some d
            ∧ (or_zero (credits d') + or_zero (creditsUsed d')
               = or_zero (credits d) + or_zero (creditsUsed d))%Z)
  ∧ (type ≠ "video" → ∀ uid, userCredits users' uid = userCredits users uid).
Proof.
  assert (∀ f : UserDoc → UserDoc,
            (∀ d, (or_zero (credits (f d)) + or_zero (creditsUsed (f d))
                   = or_zero (credits d) + or_zero (creditsUsed d))%Z) →
            let users' := default users
                            (firestore_update users update_throws userId f) in
            dom users' = dom users
            ∧ (∀ other, other ≠ userId → users' !! other = users !! other)
            ∧ (∀ uid d', users' !! uid = Some d' →
                 ∃ d, users !! uid = Some d
                      ∧ (or_zero (credits d') + or_zero (creditsUsed d')
                         = or_zero (credits d) + or_zero (creditsUsed d))%Z))
    as Hupdate.
  { intros f Hf. cbv zeta. unfold firestore_update.
    destruct (users !! userId) as [d0|] eqn:Hd0;
      [destruct update_throws|]; cbn [from_option id].
    1, 3: split_and!; [done | done |]; intros uid d' Hd'; by exists d'.
    split_and!.
    - rewrite dom_insert_L. apply subseteq_union_1_L, singleton_subseteq_l.
      by apply elem_of_dom_2 in Hd0.
    - intros other Hne. by rewrite lookup_insert_ne.
    - intros uid d'. destruct (decide (userId = uid)) as [<-|Hne].
      + rewrite lookup_insert_eq. intros [= <-]. exists d0. by rewrite Hf.
      + rewrite lookup_insert_ne by done. intros Hd'. by exists d'. }
  cbv zeta in *. unfold updateUsage.
  destruct (String.eqb_spec type "video") as [->|Hvideo].
  - destruct (Hupdate (video_update stamp)) as (Hdom & Hother & Hsum).
    { intros d. cbn. unfold CREDITS_PER_VIDEO. lia. }
    split_and!; [done | done | done | done].
  - destruct (String.eqb_spec type "script") as [->|Hscript].
    + destruct (Hupdate (script_update stamp)) as (Hdom & Hother & Hsum).
      { intros d. reflexivity. }
      split_and!; [done | done | done |]. intros _ uid.
      unfold userCredits, firestore_update.
      destruct (users !! userId) as [d0|] eqn:Hd0;
        [destruct update_throws|]; cbn [from_option id]; try reflexivity.
      destruct (decide (userId = uid)) as [<-|Hne].
      * by rewrite lookup_insert_eq, Hd0.
      * by rewrite lookup_insert_ne.
    + split_and!; [done | done | | done].
      intros uid d' Hd'. by exists d'.
Qed.

(** [n] commits in a row take [20 * n] credits. *)
Lemma after_commits_credits (users : gmap string UserDoc) userId stamps d :
  users !! userId = Some d →
  userCredits (after_commits users userId stamps) userId
  = (userCredits users userId - 20 * Z.of_nat (length stamps))%Z.
Proof.
  revert users d. induction stamps as [|stamp stamps IH]; intros users d Hd.
  - unfold after_commits. cbn [foldl length]. lia.
  - cbn [after_commits foldl length].
    assert (updateUsage users false stamp userId "video"
            = <[userId := video_update stamp d]> users) as ->.
    { unfold updateUsage, firestore_update. cbn. by rewrite Hd. }
    pose proof (IH (<[userId := video_update stamp d]> users)
                  (video_update stamp d)) as Hcredits.
    unfold after_commits in Hcredits. rewrite Hcredits.
    + unfold userCredits. rewrite lookup_insert_eq, Hd. cbn.
      unfold CREDITS_PER_VIDEO. lia.
    + by rewrite lookup_insert_eq.
Qed.

(** X5.  From a balance [b], after [n] commits that all went through, the
    preflight admits the next video exactly when [20 * (n + 1) <= b]: a
    balance pays for [b / 20] videos made one after the other, and the
    admitted request is told what remains after it. *)
Theorem balance_pays_for_whole_videos (users : gmap string UserDoc)
    (user : User) (d : UserDoc) (stamps : list Z) :
  users !! uid user = Some d →
  let b := userCredits users (uid user) in
  let n := Z.of_nat (length stamps) in
  let check := checkVideoLimits (after_commits users (uid user) stamps)
                 false (Some user) in
  ((∃ info, check = Next info) ↔ (20 * (n + 1) ≤ b)%Z)
  ∧ (∀ info, check = Next info →
       available info = (b - 20 * n)%Z
       ∧ required info = 20%Z
       ∧ remaining info = (b - 20 * (n + 1))%Z
       ∧ (0 ≤ remaining info)%Z)
  ∧ ((b - 20 * n < 20)%Z →
       check = InsufficientCredits (b - 20 * n) 20 upgradeOptions).
Proof.
  intros Hd b n check.
  pose proof (after_commits_credits users (uid user) stamps d Hd) as Hafter.
  subst check. unfold checkVideoLimits. rewrite Hafter. fold b n.
  unfold CREDITS_PER_VIDEO.
  destruct (Z.ltb_spec (b - 20 * n) 20) as [Hlt|Hge].
  - split_and!; [|discriminate|done].
    split; [intros [info [=]] | lia].
  - split_and!; [| |lia].
    + split; [lia | by eexists].
    + intros info [= <-]. cbn. lia.
Qed.

(** 65 credits, three commits: the fourth request is refused with 5
    credits left. *)
Lemma balance_pays_for_whole_videos_witness :
  checkVideoLimits (after_commits (users (world_with 65)) "alice" [1; 2; 3]%Z)
    false (Some alice)
  = InsufficientCredits 5 20 upgradeOptions.
Proof.
  apply (balance_pays_for_whole_videos (users (world_with 65)) alice
           (account 65) [1; 2; 3]%Z eq_refl).
  vm_compute. reflexivity.
Defined.

(** ** The pipeline: balances, validation and the key counters *)

Lemma updateUsage_lookup_ne (users : gmap string UserDoc) update_throws stamp
    userId type other :
  other ≠ userId →
  updateUsage users update_throws stamp userId type !! other = users !! other.
Proof.
  intros Hne. unfold updateUsage, firestore_update.
  destruct (String.eqb type "video"); [|destruct (String.eqb type "script")];
    try reflexivity.
  all: destruct (users !! userId); [destruct update_throws|];
    cbn [from_option id]; try reflexivity.
  all: by rewrite lookup_insert_ne.
Qed.

(** What an admitted request knows about the balance. *)
Lemma admitted_balance (users : gmap string UserDoc) get_throws req_user info :
  checkVideoLimits users get_throws req_user = Next info →
  ∃ user d, req_user = Some user ∧ users !! uid user = Some d
            ∧ (20 ≤ or_zero (credits d))%Z.
Proof.
  unfold checkVideoLimits, userCredits, CREDITS_PER_VIDEO.
  destruct req_user as [user|]; [|discriminate].
  destruct get_throws; [discriminate|].
  destruct (users !! uid user) as [d|] eqn:Hd; simpl.
  - destruct (Z.ltb_spec (or_zero (credits d)) 20); [discriminate|].
    intros _. by exists user, d.
  - cbn. discriminate.
Qed.

(** The [catch] block never sends a bare error body. *)
Lemma handler_catch_body e s : body (handler_catch e) ≠ ErrorBody s.
Proof. unfold handler_catch. by destruct (error_response e) as [[]|]. Qed.

Lemma handler_catch_response e s n :
  handler_catch e ≠ {| status := n; body := ErrorBody s |}.
Proof. intros H. apply (handler_catch_body e s). by rewrite H. Qed.

(** The route alone on the collection is the route. *)
Lemma generate_video_alone env req w :
  generate_video_among id env req w = generate_video env req w.
Proof.
  unfold generate_video_among, generate_video.
  destruct (checkVideoLimits _ _ _); try reflexivity. by destruct w.
Qed.

(** The balance after a ['video'] update. *)
Lemma updateUsage_video_credits (users : gmap string UserDoc)
    (update_throws : bool) (stamp : Z) (userId : string) :
  userCredits (updateUsage users update_throws stamp userId "video") userId
  = (if update_throws then userCredits users userId
     else match users !! userId with
          | Some _ => userCredits users userId - 20
          | None => userCredits users userId
          end)%Z.
Proof.
  unfold userCredits, updateUsage, firestore_update. cbn.
  destruct (users !! userId) as [d|] eqn:Hd; [destruct update_throws|];
    cbn [from_option id].
  - by rewrite Hd.
  - rewrite lookup_insert_eq. cbn. unfold CREDITS_PER_VIDEO. lia.
  - rewrite Hd. by destruct update_throws.
Qed.

(** X6.  The commit debits what is there when it runs, not what the
    preflight saw.  For an admitted request, with [others] standing for
    what other requests write to the user documents between its preflight
    and its commit: a run that does not succeed leaves their documents as
    they wrote them; a run that succeeds applies [updateUsage] to them,
    which takes 20 credits from whatever balance it finds.  The run cannot
    overdraw when the balance at the commit is still the balance that the
    preflight read, and it can when it is not: two overlapping runs of one
    user with 25 credits are both admitted and leave -15. *)
Theorem commit_debits_the_balance_of_its_time
    (others : gmap string UserDoc → gmap string UserDoc) env req w user :
  req_user req = Some user →
  admitted env req w →
  let run := generate_video_among others env req w in
  let at_commit := others (users w) in
  (succeeded (response run) = false → users (final run) = at_commit)
  ∧ (succeeded (response run) = true →
     users (final run)
     = updateUsage at_commit (users_update_throws env) (serverTimestamp env)
         (uid user) "video")
  ∧ (userCredits at_commit (uid user) = userCredits (users w) (uid user) →
     (0 ≤ userCredits (users (final run)) (uid user))%Z)
  ∧ (succeeded (response run) = true →
     users_update_throws env = false →
     is_Some (at_commit !! uid user) →
     userCredits (users (final run)) (uid user)
     = (userCredits at_commit (uid user) - 20)%Z)
  ∧ (∀ other, other ≠ uid user →
       users (final run) !! other = at_commit !! other).
Proof.
  intros Huser [info Hcheck]. cbv zeta.
  assert ((succeeded (response (generate_video_among others env req w)) = false
           → users (final (generate_video_among others env req w))
             = others (users w))
          ∧ (succeeded (response (generate_video_among others env req w)) = true
             → users (final (generate_video_among others env req w))
               = updateUsage (others (users w)) (users_update_throws env)
                   (serverTimestamp env) (uid user) "video")) as [Hfail Hok].
  { unfold generate_video_among. rewrite Hcheck.
    unfold handler, handler_try. unfold_steps. rewrite Huser.
    repeat (next_answer; rewrite ?succeeded_catch;
            try (split; [reflexivity | discriminate])).
    split; [discriminate | reflexivity]. }
  split_and!; [exact Hfail | exact Hok | | |].
  - intros Hsame.
    apply admitted_balance in Hcheck as (user' & d & Huser' & Hd & Hbalance).
    assert (user' = user) as -> by congruence.
    assert (20 ≤ userCredits (others (users w)) (uid user))%Z as Hthere.
    { rewrite Hsame. unfold userCredits. rewrite Hd. exact Hbalance. }
    destruct (succeeded (response (generate_video_among others env req w))).
    + rewrite (Hok eq_refl), updateUsage_video_credits.
      destruct (users_update_throws env); [lia|].
      destruct (others (users w) !! uid user); lia.
    + rewrite (Hfail eq_refl). lia.
  - intros Hsucceeded Hthrows [d Hd].
    rewrite (Hok Hsucceeded), updateUsage_video_credits, Hthrows, Hd.
    reflexivity.
  - intros other Hne.
    destruct (succeeded (response (generate_video_among others env req w))).
    + rewrite (Hok eq_refl). by apply updateUsage_lookup_ne.
    + by rewrite (Hfail eq_refl).
Qed.

(** Two overlapping runs of Alice, 25 credits: the other run commits while
    this one is polling. *)
Lemma commit_debits_the_balance_of_its_time_witness :
  userCredits
    (users (final (generate_video_among (other_commit alice 1699999990)
                     (env_with completes_third) request (world_with 25))))
    (uid alice)
  = (-15)%Z.
Proof.
  refine (eq_trans
            (proj1 (proj2 (proj2 (proj2
               (commit_debits_the_balance_of_its_time
                  (other_commit alice 1699999990) (env_with completes_third)
                  request (world_with 25) alice eq_refl _)))) _ _ _) _).
  - eexists. vm_compute. reflexivity.
  - vm_compute. reflexivity.
  - reflexivity.
  - eexists. vm_compute. reflexivity.
  - vm_compute. reflexivity.
Defined.

(** X7.  The route answers 400 'Script and avatar are required' exactly
    when the preflight has let the request through and [script] or
    [avatar] is missing or empty; the world is then as before (no key is
    charged) and no call has been made. *)
Theorem missing_fields_answer_400 env req w :
  let run := generate_video env req w in
  let bad_request :=
    {| status := 400; body := ErrorBody "Script and avatar are required" |} in
  (response run = bad_request ↔ admitted env req w ∧ ¬ well_formed req)
  ∧ (response run = bad_request → final run = w ∧ trace run = []).
Proof.
  cbv zeta. unfold admitted, well_formed, generate_video.
  destruct (checkVideoLimits _ _ _) as [| | |info] eqn:Hcheck.
  1-3: split; [split; [discriminate | intros [[? [=]] _]] | discriminate].
  assert (∀ P : Prop, P ↔ (∃ info0, Next info = Next info0) ∧ P) as Hnext.
  { intros P. split; [intros HP; split; [by eexists | done] | by intros [_ HP]]. }
  unfold handler, handler_try. unfold_steps.
  destruct (truthy (script (req_body req))) as [s|] eqn:Hs; unfold_steps.
  2: { split; [|done]. rewrite <- Hnext. split; [|done].
       intros _ [[? [=]] _]. }
  destruct (truthy (avatar (req_body req))) as [a|] eqn:Ha; unfold_steps.
  2: { split; [|done]. rewrite <- Hnext. split; [|done].
       intros _ [_ [? [=]]]. }
  rewrite <- Hnext.
  assert (¬ ¬ (is_Some (Some s) ∧ is_Some (Some a))) as Hwf
    by (intros Hno; apply Hno; split; by eexists).
  repeat (next_answer;
          try (split; [split; [discriminate | intros H; by destruct (Hwf H)]
                      | discriminate])).
  all: split; [split; [|intros H; by destruct (Hwf H)]|];
    intros Hresp; by destruct (handler_catch_response _ _ _ Hresp).
Qed.

(** X8.  The route answers 503 'No API keys available' exactly when an
    admitted, well-formed request gets no usable key (the pool is empty,
    or the key picked is the empty string); no call has then been made,
    but the key counters have already been updated.  With an empty pool
    they are left as the single entry ["undefined" := 1]. *)
Theorem no_usable_key_answers_503 env req w :
  let run := generate_video env req w in
  let picked := getNextHeyGenKey (HEYGEN_KEYS env) (keyUsageCount w) in
  let unavailable :=
    {| status := 503; body := ErrorBody "No API keys available" |} in
  (response run = unavailable
   ↔ admitted env req w ∧ well_formed req ∧ truthy picked.1 = None)
  ∧ (response run = unavailable →
       trace run = []
       ∧ final run = set_keyUsageCount picked.2 w)
  ∧ (HEYGEN_KEYS env = [] → picked = (None, {[ "undefined" := 1 ]})).
Proof.
  cbv zeta. unfold admitted, well_formed, generate_video.
  split_and!; [| |by intros ->].
  - destruct (checkVideoLimits _ _ _) as [| | |info] eqn:Hcheck.
    1-3: split; [discriminate | intros [[? [=]] _]].
    unfold handler, handler_try. unfold_steps.
    destruct (truthy (script (req_body req))) as [s|] eqn:Hs; unfold_steps.
    2: split; [discriminate | intros (_ & [[? [=]] _] & _)].
    destruct (truthy (avatar (req_body req))) as [a|] eqn:Ha; unfold_steps.
    2: split; [discriminate | intros (_ & [_ [? [=]]] & _)].
    destruct (getNextHeyGenKey _ _) as [key m] eqn:Hkey. unfold_steps.
    destruct (truthy key) as [apiKey|] eqn:Hfalsy; unfold_steps.
    2: { split; [|done]. intros _. split_and!; by eexists || reflexivity. }
    repeat (next_answer;
            try (split; [discriminate | intros (_ & _ & [=])])).
    all: split; [|intros (_ & _ & [=])];
      intros Hresp; by destruct (handler_catch_response _ _ _ Hresp).
  - destruct (checkVideoLimits _ _ _) as [| | |info] eqn:Hcheck;
      try discriminate.
    unfold handler, handler_try. unfold_steps.
    repeat (next_answer; try discriminate; try (intros _; by split)).
    all: intros Hresp; by destruct (handler_catch_response _ _ _ Hresp).
Qed.

(** X9.  Every admitted, well-formed request charges exactly one key use,
    also when the provider then rejects the job, the poll times out or a
    later stage fails; any other request leaves the key counters alone. *)
Theorem validated_request_charges_one_key env req w :
  let run := generate_video env req w in
  (admitted env req w → well_formed req →
     keyUsageCount (final run)
     = (getNextHeyGenKey (HEYGEN_KEYS env) (keyUsageCount w)).2)
  ∧ (¬ (admitted env req w ∧ well_formed req) →
       keyUsageCount (final run) = keyUsageCount w).
Proof.
  cbv zeta. unfold admitted, well_formed, generate_video.
  destruct (checkVideoLimits _ _ _) as [| | |info] eqn:Hcheck.
  1-3: split; [intros [? [=]] | reflexivity].
  unfold handler, handler_try. unfold_steps.
  destruct (truthy (script (req_body req))) as [s|] eqn:Hs; unfold_steps.
  2: split; [intros _ [[? [=]] _] | reflexivity].
  destruct (truthy (avatar (req_body req))) as [a|] eqn:Ha; unfold_steps.
  2: split; [intros _ [_ [? [=]]] | reflexivity].
  assert ((∃ info0, Next info = Next info0)
          ∧ is_Some (Some s) ∧ is_Some (Some a)) as Hwf
    by (split_and!; by eexists).
  repeat (next_answer;
          try (split; [reflexivity | intros H; by destruct (H Hwf)])).
Qed.

(** The provider rejects the job: the key use is charged all the same. *)
Lemma validated_request_charges_one_key_witness :
  keyUsageCount
    (final (generate_video env_submit_rejected request (world_with 25)))
  = {[ "key-1" := 1 ]}.
Proof.
  refine (eq_trans (proj1 (validated_request_charges_one_key
                             env_submit_rejected request (world_with 25))
                      _ _) _).
  - eexists. vm_compute. reflexivity.
  - split; by eexists.
  - vm_compute. reflexivity.
Defined.

(** ** The pipeline: stored records, scratch files, the end of polling *)

Lemma downloads_poll_rounds key d a s vo k v n t :
  downloads (HeyGenGenerate key d a s vo :: poll_rounds k v n ++ t)
  = downloads t.
Proof. cbn [downloads]. induction n as [|n IH]; [done|]. exact IH. Qed.

Arguments downloads : simpl never.

(** Evaluate a projection on the explicit part of a trace. *)
Ltac eval_projection f :=
  repeat match goal with
  | |- context [f ?t] =>
      lazymatch t with
      | context [poll_rounds] => fail
      | _ => let v := eval vm_compute in (f t) in change (f t) with v
      end
  end.

Ltac trace_eval :=
  pad_poll_rounds;
  rewrite ?commits_poll_rounds, ?polls_poll_rounds,
    ?waited_submit_poll_rounds, ?submitted_poll_rounds, ?removed_poll_rounds,
    ?downloading_poll_rounds, ?downloads_poll_rounds by reflexivity;
  eval_projection polls; eval_projection waited; eval_projection downloads;
  eval_projection downloading; eval_projection commits.

(** X10.  A run that does not end with the success answer stores no video
    record.  A run that does stores exactly one, and the answer gives its
    id and its [processedUrl]; the record belongs to the requester, has
    status ['completed'], the server's timestamp, the URL that was
    downloaded as [originalUrl] and the dimensions that were submitted. *)
Theorem stored_record_matches_answer env req w :
  let run := generate_video env req w in
  (succeeded (response run) = false → videos (final run) = videos w)
  ∧ (succeeded (response run) = true →
       ∃ docId record user,
         videos (final run) = (videos w ++ [(docId, record)])%list
         ∧ response run
           = {| status := 200;
                body := SuccessBody docId (processedUrl (videoData record)) |}
         ∧ req_user req = Some user
         ∧ userId (videoData record) = uid user
         ∧ video_status record = "completed"
         ∧ createdAt record = serverTimestamp env
         ∧ downloads (trace run) = [originalUrl (videoData record)]
         ∧ submitted (trace run) = [dimensions (videoData record)]).
Proof.
  cbv zeta. unfold generate_video.
  destruct (checkVideoLimits _ _ _) as [| | |info] eqn:Hcheck;
    try (split; [reflexivity | discriminate]).
  unfold handler, handler_try. unfold_steps.
  repeat (next_answer; rewrite ?succeeded_catch;
          try (split; [reflexivity | discriminate])).
  split; [discriminate|]. intros _. eexists _, _, _.
  split_and!; try reflexivity; by trace_eval.
Qed.

Lemma stored_record_matches_answer_witness :
  let run := generate_video (env_with completes_third) request (world_with 25) in
  ∃ docId record user,
    videos (final run) = ([] ++ [(docId, record)])%list
    ∧ response run
      = {| status := 200;
           body := SuccessBody docId (processedUrl (videoData record)) |}
    ∧ req_user request = Some user
    ∧ userId (videoData record) = uid user
    ∧ video_status record = "completed"
    ∧ createdAt record = 1700000000%Z
    ∧ downloads (trace run) = [originalUrl (videoData record)]
    ∧ submitted (trace run) = [dimensions (videoData record)].
Proof.
  apply (proj2 (stored_record_matches_answer (env_with completes_third)
                  request (world_with 25))).
  vm_compute. reflexivity.
Defined.

(** X11.  Whatever happens, a run creates and deletes no file other than
    its own two scratch paths, which are [path.join] of the output
    directory and the two file names: with the default [./output] they are
    [output/temp-<uuid>.mp4] and [output/clean-<uuid>.mp4].  A file is
    named by its normalised path, so another spelling of a scratch path is
    that scratch path. *)
Theorem run_touches_only_its_scratch_files env req w (path : string) :
  normalize path ≠ tempVideoPath env →
  normalize path ≠ cleanVideoPath env →
  normalize path ∈ files (final (generate_video env req w))
  ↔ normalize path ∈ files w.
Proof.
  generalize (normalize path). clear path. intros path.
  intros Htemp Hclean. unfold generate_video.
  destruct (checkVideoLimits _ _ _) as [| | |info] eqn:Hcheck;
    try reflexivity.
  unfold handler, handler_try. unfold_steps.
  repeat (next_answer; try reflexivity).
  all: rewrite ?elem_of_difference, ?elem_of_union, ?elem_of_singleton; tauto.
Qed.

Lemma run_touches_only_its_scratch_files_witness :
  tempVideoPath env_upload_fails = "output/temp-1111.mp4"
  ∧ cleanVideoPath env_upload_fails = "output/clean-2222.mp4"
  ∧ normalize "./output/keep.mp4" = "output/keep.mp4"
  ∧ (normalize "./output/keep.mp4"
     ∈ files (final (generate_video env_upload_fails request
                       (set_files {[ "output/keep.mp4" ]} (world_with 25))))
     ↔ normalize "./output/keep.mp4"
       ∈ files (set_files {[ "output/keep.mp4" ]} (world_with 25))).
Proof.
  split_and!; [vm_compute; reflexivity.. |].
  apply (run_touches_only_its_scratch_files env_upload_fails request
           (set_files {[ "output/keep.mp4" ]} (world_with 25))
           "./output/keep.mp4");
    vm_compute; discriminate.
Defined.

Lemma poll_value_S env n :
  poll_value env (S n)
  = match poll_try (status_get env (maxAttempts - S n)) with
    | Break videoUrl => videoUrl
    | _ => poll_value env n
    end.
Proof. reflexivity. Qed.

Lemma poll_count_S env n :
  poll_count env (S n)
  = match poll_try (status_get env (maxAttempts - S n)) with
    | Break _ => 1
    | _ => S (poll_count env n)
    end.
Proof. reflexivity. Qed.

(** The loop ends at the first iteration that [break]s. *)
Lemma poll_first_break env n i videoUrl :
  n ≤ maxAttempts →
  maxAttempts - n ≤ i < maxAttempts →
  (∀ j v, maxAttempts - n ≤ j < i → poll_try (status_get env j) ≠ Break v) →
  poll_try (status_get env i) = Break videoUrl →
  poll_value env n = videoUrl
  ∧ poll_count env n = S (i - (maxAttempts - n)).
Proof.
  induction n as [|n IH]; intros Hn Hi Hbefore Hbreak; [lia|].
  rewrite poll_value_S, poll_count_S.
  destruct (decide (i = maxAttempts - S n)) as [->|Hne].
  - rewrite Hbreak. split; [done | f_equal; lia].
  - destruct (poll_try (status_get env (maxAttempts - S n)))
      as [v| |e] eqn:Htry.
    + by destruct (Hbefore (maxAttempts - S n) v ltac:(lia)).
    + destruct IH as [-> ->]; [lia | lia | | done | split; [done | lia]].
      intros j v Hj. apply Hbefore. lia.
    + destruct IH as [-> ->]; [lia | lia | | done | split; [done | lia]].
      intros j v Hj. apply Hbefore. lia.
Qed.

(** X12.  Polling stops at the first status query that is answered
    ['completed']: if that is query number [i + 1], exactly [i + 1]
    queries are sent, each after a 5 second wait.  If the answer carries a
    URL, that URL and no other is downloaded; if it carries none (or an
    empty one), nothing is downloaded and the route answers 408 at
    once. *)
Theorem polling_stops_at_first_completed env req w video_id i video_url :
  submitted (trace (generate_video env req w)) ≠ [] →
  submit env = SubmitOk video_id →
  i < 60 →
  (∀ j status url, j < i → status_get env j = PollOk status url →
                   status ≠ "completed") →
  status_get env i = PollOk "completed" video_url →
  let run := generate_video env req w in
  polls (trace run) = S i
  ∧ waited (trace run) = (5000 * Z.of_nat (S i))%Z
  ∧ downloads (trace run) = match truthy video_url with
                            | Some url => [url]
                            | None => []
                            end
  ∧ (truthy video_url = None →
       response run
       = {| status := 408; body := ErrorBody "Video generation timeout" |}).
Proof.
  assert (maxAttempts = 60) as Hmax by reflexivity.
  intros Hsub Hok Hi Hbefore Hcompleted. cbv zeta.
  destruct (poll_first_break env maxAttempts i video_url) as [Hval Hcount].
  - lia.
  - lia.
  - intros j v Hj Htry.
    destruct (status_get env j) as [status url|e] eqn:Hget; [|discriminate].
    pose proof (Hbefore j status url ltac:(lia) Hget) as Hnot.
    unfold poll_try in Htry.
    by destruct (String.eqb_spec status "completed");
      [|destruct (String.eqb status "failed")].
  - by rewrite Hcompleted.
  - replace (S (i - (maxAttempts - maxAttempts))) with (S i) in Hcount by lia.
    revert Hsub. unfold generate_video.
    destruct (checkVideoLimits _ _ _);
      try (intros Hsub; exfalso; apply Hsub; reflexivity).
    unfold handler, handler_try. unfold_steps.
    repeat (next_answer; rewrite ?Hval; unfold_steps;
            try (intros Hsub; exfalso; apply Hsub; reflexivity)).
    all: try (exfalso; congruence).
    all: intros _; trace_eval; rewrite ?Hcount.
    all: split_and!; try reflexivity; try discriminate; try lia; congruence.
Qed.

(** ['completed'] without a URL on the second query. *)
Lemma polling_stops_at_first_completed_witness :
  let env := env_with (λ n, if n =? 1 then PollOk "completed" None
                            else processing) in
  let run := generate_video env request (world_with 25) in
  polls (trace run) = 2
  ∧ waited (trace run) = (5000 * Z.of_nat 2)%Z
  ∧ downloads (trace run) = []
  ∧ (truthy None = None →
       response run
       = {| status := 408; body := ErrorBody "Video generation timeout" |}).
Proof.
  apply (polling_stops_at_first_completed
           (env_with (λ n, if n =? 1 then PollOk "completed" None
                           else processing))
           request (world_with 25) "video-1" 1 None).
  - vm_compute. discriminate.
  - reflexivity.
  - lia.
  - intros j status url Hj. assert (j = 0) as -> by lia.
    intros [= <- _]. discriminate.
  - reflexivity.
Defined.

(** X13.  When the provider rejects the submission, the route forwards the
    provider's status code and body under 'HeyGen API Error' (500 with the
    error message when the error carries no HTTP answer); no status query
    is sent, nothing is downloaded, and users, videos and files are as
    before. *)
Theorem rejected_submission_is_forwarded env req w e :
  submitted (trace (generate_video env req w)) ≠ [] →
  submit env = SubmitThrows e →
  let run := generate_video env req w in
  response run = handler_catch e
  ∧ (∀ code data, error_response e = Some (code, data) →
       response run
       = {| status := code; body := ErrorDetailsBody "HeyGen API Error" data |})
  ∧ polls (trace run) = 0
  ∧ downloads (trace run) = []
  ∧ users (final run) = users w
  ∧ videos (final run) = videos w
  ∧ files (final run) = files w.
Proof.
  intros Hsub Hthrows. cbv zeta.
  assert (∀ code data, error_response e = Some (code, data) →
            handler_catch e
            = {| status := code;
                 body := ErrorDetailsBody "HeyGen API Error" data |}) as Hfwd.
  { intros code data He. unfold handler_catch. by rewrite He. }
  revert Hsub. unfold generate_video.
  destruct (checkVideoLimits _ _ _);
    try (intros Hsub; exfalso; apply Hsub; reflexivity).
  unfold handler, handler_try. unfold_steps.
  repeat (next_answer;
          try (intros Hsub; exfalso; apply Hsub; reflexivity)).
  all: try (exfalso; congruence).
  injection Hthrows as ->. intros _.
  split_and!; try reflexivity. exact Hfwd.
Qed.

Lemma rejected_submission_is_forwarded_witness :
  response (generate_video env_submit_rejected request (world_with 25))
  = {| status := 429; body := ErrorDetailsBody "HeyGen API Error" "quota" |}.
Proof.
  refine (proj1 (proj2 (rejected_submission_is_forwarded env_submit_rejected
                          request (world_with 25) _ _ eq_refl))
            429 "quota" eq_refl).
  vm_compute. discriminate.
Defined.

(** * Properties of the other routes *)

Import Routes.

Section StoredDocuments.

Context {A : Type}.
Implicit Types (docs : list (string * A)) (id : string).

Lemma find_doc_app_fresh docs id a :
  find_doc docs id = None → find_doc (docs ++ [(id, a)])%list id = Some a.
Proof.
  unfold find_doc. induction docs as [|[id' a'] docs IH]; simpl.
  - by rewrite String.eqb_refl.
  - destruct (String.eqb id' id); [discriminate | exact IH].
Qed.

Lemma find_doc_app_ne docs id other a :
  other ≠ id → find_doc (docs ++ [(id, a)])%list other = find_doc docs other.
Proof.
  intros Hne. unfold find_doc. induction docs as [|[id' a'] docs IH]; simpl.
  - destruct (String.eqb_spec id other); [congruence | reflexivity].
  - destruct (String.eqb id' other); [reflexivity | exact IH].
Qed.

Lemma find_doc_delete_eq docs id : find_doc (delete_doc docs id) id = None.
Proof.
  unfold find_doc, delete_doc. induction docs as [|[id' a'] docs IH]; simpl.
  - reflexivity.
  - destruct (String.eqb id' id) eqn:Heq; simpl; [exact IH|].
    rewrite Heq. exact IH.
Qed.

Lemma find_doc_delete_ne docs id other :
  other ≠ id → find_doc (delete_doc docs id) other = find_doc docs other.
Proof.
  intros Hne. unfold find_doc, delete_doc.
  induction docs as [|[id' a'] docs IH]; simpl.
  - reflexivity.
  - destruct (String.eqb_spec id' id) as [->|Hid]; simpl.
    + destruct (String.eqb_spec id other); [congruence | exact IH].
    + destruct (String.eqb id' other); [reflexivity | exact IH].
Qed.

End StoredDocuments.

(** A successful run appends the record its answer names. *)
Lemma success_appends_record env req w :
  let run := generate_video env req w in
  succeeded (response run) = true →
  ∃ docId record,
    videos (final run) = (videos w ++ [(docId, record)])%list
    ∧ response run
      = {| status := 200;
           body := SuccessBody docId (processedUrl (videoData record)) |}.
Proof.
  cbv zeta. unfold generate_video.
  destruct (checkVideoLimits _ _ _) as [| | |info] eqn:Hcheck;
    try discriminate.
  unfold handler, handler_try. unfold_steps.
  repeat (next_answer; rewrite ?succeeded_catch; try discriminate).
  intros _. eexists _, _. split; reflexivity.
Qed.

(** X14.  Round trip through the store: the video id of a success answer,
    fresh when it was handed out, is redirected by [/api/serve/:videoId]
    to the very URL the answer carried, [/api/video/:videoId] returns the
    stored record with that URL, and every other id is served as before
    the run. *)
Theorem stored_video_is_served env req w docId url :
  response (generate_video env req w)
  = {| status := 200; body := SuccessBody docId url |} →
  find_doc (videos w) docId = None →
  let videos' := videos (final (generate_video env req w)) in
  serve_video false videos' docId = Redirected url
  ∧ (∃ record, video_info false videos' docId = VideoInfo docId record
               ∧ processedUrl (videoData record) = url)
  ∧ (∀ other, other ≠ docId →
       serve_video false videos' other = serve_video false (videos w) other
       ∧ video_info false videos' other = video_info false (videos w) other).
Proof.
  intros Hresponse Hfresh. cbv zeta.
  destruct (success_appends_record env req w) as (docId' & record & -> & Heq).
  { by rewrite Hresponse. }
  rewrite Hresponse in Heq. injection Heq as -> ->.
  unfold serve_video, video_info.
  rewrite (find_doc_app_fresh _ _ _ Hfresh). split_and!.
  - reflexivity.
  - by exists record.
  - intros other Hne. by rewrite (find_doc_app_ne _ _ _ _ Hne).
Qed.

Lemma stored_video_is_served_witness :
  let videos' :=
    videos (final (generate_video (env_with completes_third) request
                     (world_with 25))) in
  serve_video false videos' "doc-1"
  = Redirected "https://files.catbox.moe/abc.mp4"
  ∧ (∃ record, video_info false videos' "doc-1" = VideoInfo "doc-1" record
               ∧ processedUrl (videoData record)
                 = "https://files.catbox.moe/abc.mp4")
  ∧ (∀ other, other ≠ "doc-1" →
       serve_video false videos' other
       = serve_video false (videos (world_with 25)) other
       ∧ video_info false videos' other
         = video_info false (videos (world_with 25)) other).
Proof.
  apply (stored_video_is_served (env_with completes_third) request
           (world_with 25) "doc-1" "https://files.catbox.moe/abc.mp4");
    vm_compute; reflexivity.
Defined.

(** X15.  [DELETE /videos/:videoId] deletes only for the owner: it answers
    success exactly when both store calls go through and the record exists
    and carries the caller's uid.  Then that id is no longer served and
    every other record is as before; in every other case the collection is
    unchanged. *)
Theorem delete_video_is_owner_only (get_throws delete_throws : bool)
    (user : User) (videos : list (string * VideoRecord)) (videoId : string) :
  let result := delete_video get_throws delete_throws user videos videoId in
  (result.1 = DeletedFromHistory ↔
     get_throws = false ∧ delete_throws = false
     ∧ ∃ doc, find_doc videos videoId = Some doc
              ∧ userId (videoData doc) = uid user)
  ∧ (result.1 ≠ DeletedFromHistory → result.2 = videos)
  ∧ (result.1 = DeletedFromHistory →
       serve_video false result.2 videoId = Refused 404 "Video not found"
       ∧ ∀ other, other ≠ videoId →
           find_doc result.2 other = find_doc videos other).
Proof.
  cbv zeta. unfold delete_video.
  destruct get_throws.
  { simpl. split_and!; [|done|done]. split; [done|]. by intros [? _]. }
  destruct (find_doc videos videoId) as [doc|] eqn:Hdoc.
  2: { simpl. split_and!; [|done|done]. split; [done|].
       by intros (_ & _ & ? & ? & _). }
  destruct (String.eqb_spec (userId (videoData doc)) (uid user)) as [Hown|Hown];
    simpl.
  2: { split_and!; [|done|done]. split; [done|].
       intros (_ & _ & doc' & Hdoc' & Hown'). congruence. }
  destruct delete_throws; simpl.
  { split_and!; [|done|done]. split; [done|]. by intros (_ & ? & _). }
  split_and!.
  - split; [|done]. intros _. split_and!; [done|done|]. by exists doc.
  - done.
  - intros _. unfold serve_video. rewrite find_doc_delete_eq.
    split; [reflexivity|]. intros other Hne. by apply find_doc_delete_ne.
Qed.

(** X16.  The three generating routes pick their dimensions in three
    separately written statements, and all three agree for every
    orientation string. *)
Theorem routes_agree_on_dimensions (orientation : string) :
  template_dimensions orientation = select_dimensions None orientation
  ∧ ai_dimensions orientation = select_dimensions None orientation.
Proof.
  unfold template_dimensions, ai_dimensions, select_dimensions.
  split; [reflexivity|].
  destruct (String.eqb_spec orientation "portrait") as [->|]; [reflexivity|].
  by destruct (String.eqb orientation "square").
Qed.

(** ** The template route *)

Lemma find_template (templates : list Template) (t : Template) :
  NoDup (template_id <$> templates) → t ∈ templates →
  List.find (λ t', String.eqb (template_id t') (template_id t)) templates
  = Some t.
Proof.
  induction templates as [|t' templates IH]; intros Hnodup Hin.
  - by apply elem_of_nil in Hin.
  - rewrite fmap_cons in Hnodup. apply NoDup_cons in Hnodup as [Hfresh Hnodup].
    simpl. apply elem_of_cons in Hin as [->|Hin].
    + by rewrite String.eqb_refl.
    + destruct (String.eqb_spec (template_id t') (template_id t)) as [Heq|].
      * exfalso. apply Hfresh. rewrite Heq. by apply list_elem_of_fmap_2.
      * by apply IH.
Qed.

Lemma find_template_none (templates : list Template) (templateId : string) :
  List.find (λ t, String.eqb (template_id t) templateId) templates = None
  ↔ ∀ t, t ∈ templates → template_id t ≠ templateId.
Proof.
  induction templates as [|t' templates IH]; simpl.
  - split; [|done]. intros _ t Hin. by apply elem_of_nil in Hin.
  - destruct (String.eqb_spec (template_id t') templateId) as [Heq|Hne].
    + split; [done|]. intros Hall. exfalso. apply (Hall t'); [left|done].
    + rewrite IH. split.
      * intros Hall t Hin. apply elem_of_cons in Hin as [->|Hin]; auto.
      * intros Hall t Hin. apply Hall. by right.
Qed.

Lemma CUSTOM_TEMPLATES_ids : NoDup (template_id <$> CUSTOM_TEMPLATES).
Proof. apply (bool_decide_unpack _). vm_compute. exact I. Qed.

(** X17.  Every template of the server's table is found under its own id
    (ids are unique), and with a usable key the job posted for it carries
    the dimensions of the template's orientation, the template's avatar,
    voice and sample script unless the request overrides them with
    non-empty values, and the pool's key; a submission the provider accepts
    is answered with the template's name and orientation. *)
Theorem template_job_follows_the_template (t : Template) (keys : list string)
    (submit : SubmitOutcome) (script : option string)
    (customizations : Customizations) (m : gmap string nat) (key : string) :
  t ∈ CUSTOM_TEMPLATES →
  truthy (getNextHeyGenKey keys m).1 = Some key →
  let run := template_generate CUSTOM_TEMPLATES keys submit (template_id t)
               script customizations m in
  template_job run
  = Some {| job_key := key;
            job_dimension := select_dimensions None (template_orientation t);
            job_avatar := default (recommended_avatar t)
                            (truthy (custom_avatar customizations));
            job_script := default (sample_script t) (truthy script);
            job_voice := default (recommended_voice t)
                           (truthy (custom_voice customizations)) |}
  ∧ template_usage run = (getNextHeyGenKey keys m).2
  ∧ (∀ videoId, submit = SubmitOk videoId →
       template_answer run
       = TemplateStarted videoId (template_name t) (template_orientation t)).
Proof.
  intros Hin Hkey. cbv zeta. unfold template_generate.
  rewrite (find_template _ _ CUSTOM_TEMPLATES_ids Hin).
  destruct (getNextHeyGenKey keys m) as [apiKey m'] eqn:Hnext.
  cbn [fst snd] in *. rewrite Hkey.
  destruct submit; cbn [template_job template_usage template_answer];
    split_and!; try reflexivity; congruence.
Qed.

Lemma template_job_follows_the_template_witness :
  let run := template_generate CUSTOM_TEMPLATES ["k1"] (SubmitOk "v1")
               "testimonial" None
               {| custom_avatar := None; custom_voice := Some "" |} ∅ in
  template_job run
  = Some {| job_key := "k1";
            job_dimension := {| width := 1080; height := 1080 |};
            job_avatar := "Abigail_sitting_sofa_front";
            job_script := "I've been using this service for months now, and I can honestly say it has transformed my business.";
            job_voice := "VoCODBvSDQUgLCiN46zd" |}
  ∧ template_usage run = (getNextHeyGenKey ["k1"] ∅).2
  ∧ (∀ videoId, SubmitOk "v1" = SubmitOk videoId →
       template_answer run
       = TemplateStarted videoId "Customer Testimonial" "square").
Proof.
  refine (template_job_follows_the_template
            {| template_id := "testimonial";
               template_name := "Customer Testimonial";
               template_category := "marketing";
               recommended_avatar := "Abigail_sitting_sofa_front";
               recommended_voice := "VoCODBvSDQUgLCiN46zd";
               sample_script := "I've been using this service for months now, and I can honestly say it has transformed my business.";
               template_orientation := "square" |}
            ["k1"] (SubmitOk "v1") None
            {| custom_avatar := None; custom_voice := Some "" |} ∅ "k1" _ _).
  - unfold CUSTOM_TEMPLATES. do 5 right. left.
  - reflexivity.
Defined.

(** X18.  The template route answers 404 exactly for an id that no
    template of the table has, and then before any key is charged and
    without posting a job. *)
Theorem unknown_template_answers_404 (templates : list Template)
    (keys : list string) (submit : SubmitOutcome) (templateId : string)
    (script : option string) (customizations : Customizations)
    (m : gmap string nat) :
  let run := template_generate templates keys submit templateId script
               customizations m in
  (template_answer run = TemplateRefused 404 "Template not found"
   ↔ ∀ t, t ∈ templates → template_id t ≠ templateId)
  ∧ (template_answer run = TemplateRefused 404 "Template not found" →
     template_usage run = m ∧ template_job run = None).
Proof.
  cbv zeta. rewrite <- find_template_none. unfold template_generate.
  destruct (List.find _ templates) as [t|]; [|done].
  destruct (getNextHeyGenKey keys m) as [apiKey m'].
  destruct (truthy apiKey); [destruct submit|]; simpl; split; try done.
Qed.

(** ** The AI route *)

(** X19.  [/api/generate-video-with-ai] debits when the job is submitted,
    not when a video exists: an answer other than the success answer
    leaves the user documents and the [ai-videos] collection as they were;
    the success answer comes with one new record of status ['processing']
    for the requester, whose balance was at least 20, and, if the store
    takes the usage update, with 20 credits moved to [creditsUsed] and
    [videosGenerated] and [scriptsGenerated] counted up, while no other
    user document changes. *)
Theorem ai_route_debits_at_submission (env : AiEnv) (req : AiRequest)
    (s : AiState) :
  let result := generate_video_with_ai env req s in
  (started result.1 = false →
     ai_users result.2 = ai_users s ∧ aiVideos result.2 = aiVideos s)
  ∧ (started result.1 = true →
     ∃ user d id doc,
       ai_user req = Some user
       ∧ ai_users s !! uid user = Some d
       ∧ (20 ≤ or_zero (credits d))%Z
       ∧ aiVideos result.2 = (aiVideos s ++ [(id, doc)])%list
       ∧ doc_userId doc = uid user
       ∧ doc_status doc = "processing"
       ∧ (∀ other, other ≠ uid user →
            ai_users result.2 !! other = ai_users s !! other)
       ∧ (ai_video_update_throws env = false →
            ∃ d', ai_users result.2 !! uid user = Some d'
                  ∧ credits d' = Some (or_zero (credits d) - 20)%Z
                  ∧ creditsUsed d' = Some (or_zero (creditsUsed d) + 20)%Z
                  ∧ videosGenerated d'
                    = Some (or_zero (videosGenerated d) + 1)%Z
                  ∧ scriptsGenerated d'
                    = if ai_script_update_throws env
                      then scriptsGenerated d
                      else Some (or_zero (scriptsGenerated d) + 1)%Z)).
Proof.
  cbv zeta. unfold generate_video_with_ai.
  destruct (checkVideoLimits _ _ _) as [| | |info] eqn:Hcheck;
    try (split; [done | discriminate]).
  apply admitted_balance in Hcheck as (user & d & Huser & Hd & Hbalance).
  rewrite Huser. unfold checkScriptLimits, ai_handler. rewrite Huser.
  destruct (truthy (ai_topic _)) as [topic|];
    [|split; [done | discriminate]].
  destruct (truthy (ai_avatar _)) as [avatar|];
    [|split; [done | discriminate]].
  destruct (inherited _); [split; [done | discriminate]|].
  destruct (groq env) as [content|]; [|split; [done | discriminate]].
  destruct (truthy content) as [script|]; [|split; [done | discriminate]].
  destruct (getNextHeyGenKey _ _) as [apiKey m'].
  destruct (truthy apiKey); [|split; [done | discriminate]].
  destruct (ai_submit env); [|split; [done | discriminate]].
  destruct (ai_add env) as [newId|]; [|split; [done | discriminate]].
  cbn [fst snd started ai_users aiVideos]. split; [discriminate|].
  intros _. eexists user, d, newId, _.
  split_and!; try reflexivity; try assumption.
  - intros other Hne. by rewrite !updateUsage_lookup_ne.
  - intros ->. unfold updateUsage, firestore_update.
    cbn [String.eqb Ascii.eqb Bool.eqb]. rewrite Hd. cbn [from_option id].
    rewrite lookup_insert_eq.
    destruct (ai_script_update_throws env); cbn [from_option id].
    + rewrite lookup_insert_eq. eexists. split; [reflexivity|].
      unfold video_update, increment, CREDITS_PER_VIDEO. simpl.
      split_and!; reflexivity.
    + rewrite lookup_insert_eq. eexists. split; [reflexivity|].
      unfold video_update, script_update, increment, CREDITS_PER_VIDEO. simpl.
      split_and!; reflexivity.
Qed.

Lemma ai_route_debits_at_submission_witness :
  ∃ d', ai_users (generate_video_with_ai ai_env ai_request (ai_state 25)).2
          !! uid alice = Some d'
        ∧ credits d' = Some 5%Z ∧ scriptsGenerated d' = Some 1%Z.
Proof.
  destruct (proj2 (ai_route_debits_at_submission ai_env ai_request
                     (ai_state 25)) eq_refl)
    as (user & d & id & doc & Huser & Hd & _ & _ & _ & _ & _ & Hdebit).
  injection Huser as <-. vm_compute in Hd. injection Hd as <-.
  destruct (Hdebit eq_refl) as (d' & Hd' & Hcredits & _ & _ & Hscripts).
  exists d'. split_and!; assumption.
Defined.

(** X20.  The AI route asks Groq for the script before it takes a
    provider key: whenever a request changes anything at all, the preflight
    had admitted it, topic and avatar were present, Groq had returned a
    non-empty script, and the key counters are those of one call to the
    pool. *)
Theorem ai_route_takes_a_key_only_for_a_script (env : AiEnv) (req : AiRequest)
    (s : AiState) :
  (generate_video_with_ai env req s).2 ≠ s →
  (∃ info, checkVideoLimits (ai_users s) (ai_get_throws env) (ai_user req)
           = Next info)
  ∧ is_Some (truthy (ai_topic (ai_body req)))
  ∧ is_Some (truthy (ai_avatar (ai_body req)))
  ∧ (∃ script, groq env = GroqOk (Some script) ∧ script ≠ "")
  ∧ ai_keyUsage (generate_video_with_ai env req s).2
    = (getNextHeyGenKey (ai_keys env) (ai_keyUsage s)).2.
Proof.
  unfold generate_video_with_ai.
  destruct (checkVideoLimits _ _ _) as [| | |info] eqn:Hcheck;
    try (intros []; reflexivity).
  unfold checkScriptLimits.
  destruct (ai_user req) as [user|] eqn:Huser; [|intros []; reflexivity].
  unfold ai_handler. rewrite Huser.
  destruct (truthy (ai_topic _)) as [topic|]; [|intros []; reflexivity].
  destruct (truthy (ai_avatar _)) as [avatar|]; [|intros []; reflexivity].
  destruct (inherited _); [intros []; reflexivity|].
  destruct (groq env) as [content|]; [|intros []; reflexivity].
  destruct (truthy content) as [script|] eqn:Hscript;
    [|intros []; reflexivity].
  intros _. split_and!; try by eexists.
  - exists script. destruct content as [[|]|]; try discriminate.
    injection Hscript as <-. split; [reflexivity | discriminate].
  - destruct (getNextHeyGenKey _ _) as [apiKey m'].
    destruct (truthy apiKey); [|reflexivity].
    destruct (ai_submit env); [|reflexivity].
    by destruct (ai_add env).
Qed.

Lemma ai_route_takes_a_key_only_for_a_script_witness :
  groq ai_env = GroqOk (Some "We are open every day from nine to five.")
  ∧ ai_keyUsage (generate_video_with_ai ai_env ai_request (ai_state 25)).2
    = {[ "k1" := 1 ]}.
Proof.
  destruct (ai_route_takes_a_key_only_for_a_script ai_env ai_request
              (ai_state 25)) as (_ & _ & _ & _ & Hkeys).
  { intros Heq. apply (f_equal (λ s', ai_keyUsage s' !! "k1")) in Heq.
    vm_compute in Heq. discriminate. }
  split; [reflexivity|]. rewrite Hkeys. apply map_eq. intros k.
  unfold getNextHeyGenKey. reflexivity.
Defined.

(** * Properties of the rate limiter *)

Import RateLimit.

Section RateLimitFacts.

Variables (maxRequests : nat) (windowMs : Z).

Lemma filter_recent_recent (now t : Z) (l : list Z) :
  (now ≤ t)%Z →
  List.filter (recent windowMs t) (List.filter (recent windowMs now) l)
  = List.filter (recent windowMs t) l.
Proof.
  intros Hle. induction l as [|x l IH]; [reflexivity|]. simpl.
  destruct (recent windowMs now x) eqn:Hnow; simpl.
  - by rewrite IH.
  - rewrite IH. unfold recent in *.
    destruct (Z.ltb_spec (t - windowMs) x); [|reflexivity].
    apply Z.ltb_ge in Hnow. lia.
Qed.

Lemma filter_window_recent (c T : Z) (l : list Z) :
  (∀ x, x ∈ l → (x ≤ c)%Z) → (c ≤ T)%Z →
  List.filter (in_window windowMs T) l = List.filter (recent windowMs T) l.
Proof.
  intros Hupper Hle. induction l as [|x l IH]; [reflexivity|]. simpl.
  rewrite IH by (intros y Hy; apply Hupper; by right).
  assert (x ≤ c)%Z as Hx by (apply Hupper; by left).
  unfold in_window, recent.
  destruct (Z.leb_spec x T); [|lia]. by rewrite andb_true_r.
Qed.

Lemma filter_window_before (T now : Z) (l : list Z) :
  (T < now)%Z →
  List.filter (in_window windowMs T) (l ++ [now])
  = List.filter (in_window windowMs T) l.
Proof.
  intros Hlt. rewrite List.filter_app. simpl. unfold in_window at 2.
  destruct (Z.leb_spec now T); [lia|]. rewrite andb_false_r.
  by rewrite app_nil_r.
Qed.

Lemma length_filter_recent (now T : Z) (l : list Z) :
  (now ≤ T)%Z →
  length (List.filter (recent windowMs T) l)
  ≤ length (List.filter (recent windowMs now) l).
Proof.
  intros Hle. rewrite <- (filter_recent_recent now T l Hle).
  apply List.filter_length_le.
Qed.

Lemma stored_insert_eq (requests : Requests) (u : string) (l : list Z) :
  stored (<[u := l]> requests) u = l.
Proof. unfold stored. by rewrite lookup_insert_eq. Qed.

Lemma stored_insert_ne (requests : Requests) (u other : string) (l : list Z) :
  other ≠ u → stored (<[u := l]> requests) other = stored requests other.
Proof. intros Hne. unfold stored. by rewrite lookup_insert_ne. Qed.

(** Creating the empty entry of a user changes no stored list. *)
Lemma stored_entry (requests : Requests) (userId u : string) :
  stored match requests !! userId with
         | Some _ => requests
         | None => <[userId := []]> requests
         end u
  = stored requests u.
Proof.
  destruct (requests !! userId) eqn:Hentry; [reflexivity|].
  destruct (decide (u = userId)) as [->|Hne].
  - rewrite stored_insert_eq. unfold stored. by rewrite Hentry.
  - by rewrite stored_insert_ne.
Qed.

(** One request, in terms of the stored times. *)
Lemma userRateLimit_stored (user : User) (now : Z) (requests : Requests) :
  let valid := List.filter (recent windowMs now) (stored requests (uid user)) in
  let result := userRateLimit maxRequests windowMs (Some user) now requests in
  (maxRequests ≤ length valid →
     result.1 = Limited maxRequests
     ∧ ∀ u, stored result.2 u = stored requests u)
  ∧ (length valid < maxRequests →
     result.1 = Passed
     ∧ stored result.2 (uid user) = (valid ++ [now])%list
     ∧ ∀ u, u ≠ uid user → stored result.2 u = stored requests u).
Proof.
  cbv zeta. unfold userRateLimit.
  pose proof (stored_entry requests (uid user)) as Hentry.
  set (requests0 := match requests !! uid user with
                    | Some _ => requests
                    | None => <[uid user := []]> requests
                    end) in *.
  change (default [] (requests0 !! uid user)) with (stored requests0 (uid user)).
  rewrite Hentry.
  change (λ time : Z, (now - windowMs <? time)%Z) with (recent windowMs now).
  destruct (Nat.leb_spec maxRequests
              (length (List.filter (recent windowMs now)
                         (stored requests (uid user))))) as [Hfull|Hroom].
  - split; [|lia]. intros _. by split.
  - split; [lia|]. intros _. cbn [fst snd]. split_and!.
    + reflexivity.
    + by rewrite stored_insert_eq.
    + intros u Hne. by rewrite stored_insert_ne.
Qed.

Lemma limiter_inv_ext (c : Z) (requests : Requests) (hist hist' : string → list Z) :
  (∀ u, hist u = hist' u) →
  limiter_inv maxRequests windowMs c requests hist →
  limiter_inv maxRequests windowMs c requests hist'.
Proof.
  intros Hext (Hagree & Hupper & Hbound). split_and!.
  - intros u t Ht. rewrite <- Hext. by apply Hagree.
  - intros u x. rewrite <- Hext. apply Hupper.
  - intros u T. rewrite <- Hext. apply Hbound.
Qed.

Lemma limiter_inv_empty (start : Z) :
  limiter_inv maxRequests windowMs start ∅ (λ _, []).
Proof.
  split_and!.
  - intros u t _. unfold stored. by rewrite lookup_empty.
  - intros u x Hx. by apply elem_of_nil in Hx.
  - intros u T. simpl. lia.
Qed.

(** One request keeps the invariant, and is limited exactly when the
    window that ends now already holds [maxRequests] passed requests. *)
Lemma userRateLimit_inv (c now : Z) (requests : Requests)
    (hist : string → list Z) (req_user : option User) :
  limiter_inv maxRequests windowMs c requests hist → (c ≤ now)%Z →
  let result := userRateLimit maxRequests windowMs req_user now requests in
  limiter_inv maxRequests windowMs now result.2
    (extend hist req_user now result.1)
  ∧ (∀ user, req_user = Some user →
       (result.1 = Limited maxRequests
        ↔ maxRequests
          ≤ length (List.filter (recent windowMs now) (hist (uid user)))))
  ∧ (∀ user, req_user = Some user →
       result.1 = Limited maxRequests ∨ result.1 = Passed).
Proof.
  intros (Hagree & Hupper & Hbound) Hle. cbv zeta.
  assert (limiter_inv maxRequests windowMs now requests hist) as Hkeep.
  { split_and!.
    - intros u t Ht. apply Hagree. lia.
    - intros u x Hx. specialize (Hupper u x Hx). lia.
    - exact Hbound. }
  destruct req_user as [user|]; [|split_and!; [exact Hkeep| |]; discriminate].
  pose proof (userRateLimit_stored user now requests) as Hstep.
  cbv zeta in Hstep. rewrite (Hagree (uid user) now Hle) in Hstep.
  destruct Hstep as [Hfull Hroom].
  destruct (Nat.le_gt_cases maxRequests
              (length (List.filter (recent windowMs now) (hist (uid user)))))
    as [Hcase|Hcase].
  - destruct (Hfull Hcase) as [Hverdict Hsame]. rewrite Hverdict.
    split_and!.
    + destruct Hkeep as (Hagree' & Hupper' & Hbound'). split_and!.
      * intros u t Ht. rewrite Hsame. by apply Hagree'.
      * exact Hupper'.
      * exact Hbound'.
    + intros user' [= <-]. done.
    + intros user' _. by left.
  - destruct (Hroom Hcase) as (Hverdict & Hown & Hothers). rewrite Hverdict.
    split_and!.
    + unfold extend. split_and!.
      * intros u t Ht. destruct (String.eqb_spec (uid user) u) as [<-|Hne].
        -- rewrite Hown, !List.filter_app.
           rewrite filter_recent_recent by exact Ht. done.
        -- rewrite Hothers by congruence. apply Hagree. lia.
      * intros u x. destruct (String.eqb_spec (uid user) u) as [<-|Hne].
        -- rewrite elem_of_app, list_elem_of_singleton.
           intros [Hx| ->]; [|lia]. specialize (Hupper _ _ Hx). lia.
        -- intros Hx. specialize (Hupper _ _ Hx). lia.
      * intros u T. destruct (String.eqb_spec (uid user) u) as [<-|Hne];
          [|apply Hbound].
        destruct (Z.lt_ge_cases T now) as [Hbefore|Hafter].
        -- rewrite filter_window_before by exact Hbefore. apply Hbound.
        -- rewrite (filter_window_recent now T).
           ++ rewrite List.filter_app, length_app.
              pose proof (length_filter_recent now T (hist (uid user)) Hafter).
              assert (length (List.filter (recent windowMs T) [now]) ≤ 1)
                by (simpl; destruct (recent windowMs T now); simpl; lia).
              lia.
           ++ intros x. rewrite elem_of_app, list_elem_of_singleton.
              intros [Hx| ->]; [|lia]. specialize (Hupper _ _ Hx). lia.
           ++ lia.
    + intros user' [= <-]. split; [discriminate | lia].
    + intros user' _. by right.
Qed.

Lemma serve_cons (req_user : option User) (now : Z)
    (rest : list (option User * Z)) (requests : Requests) :
  serve maxRequests windowMs ((req_user, now) :: rest) requests
  = let result := userRateLimit maxRequests windowMs req_user now requests in
    let served := serve maxRequests windowMs rest result.2 in
    (result.1 :: served.1, served.2).
Proof.
  cbn [serve].
  destruct (userRateLimit maxRequests windowMs req_user now requests)
    as [verdict requests'].
  cbv zeta. cbn [fst snd].
  by destruct (serve maxRequests windowMs rest requests').
Qed.

Lemma passed_times_cons (u : string) (req_user : option User) (now : Z)
    (rest : list (option User * Z)) (verdict : Verdict)
    (verdicts : list Verdict) (hist : string → list Z) :
  (hist u ++ passed_times u ((req_user, now) :: rest) (verdict :: verdicts))%list
  = (extend hist req_user now verdict u ++ passed_times u rest verdicts)%list.
Proof.
  unfold extend. simpl.
  destruct req_user as [user|], verdict; try reflexivity.
  destruct (String.eqb (uid user) u); [|reflexivity].
  by rewrite <- app_assoc.
Qed.

(** Serving any number of requests keeps the invariant. *)
Lemma serve_inv (arrivals : list (option User * Z)) :
  ∀ (c : Z) (requests : Requests) (hist : string → list Z),
    limiter_inv maxRequests windowMs c requests hist →
    monotone c arrivals →
    let served := serve maxRequests windowMs arrivals requests in
    limiter_inv maxRequests windowMs (latest c arrivals) served.2
      (λ u, (hist u ++ passed_times u arrivals served.1)%list).
Proof.
  induction arrivals as [|[req_user now] rest IH];
    intros c requests hist Hinv Hmono.
  - simpl. eapply limiter_inv_ext; [|exact Hinv].
    intros u. by rewrite app_nil_r.
  - destruct Hmono as [Hle Hmono]. rewrite serve_cons. cbv zeta.
    destruct (userRateLimit_inv c now requests hist req_user Hinv Hle)
      as (Hinv' & _).
    specialize (IH now _ _ Hinv' Hmono). cbv zeta in IH. cbn [fst snd latest].
    eapply limiter_inv_ext; [|exact IH].
    intros u. symmetry. apply passed_times_cons.
Qed.

(** The stored list of a user never grows beyond [maxRequests] entries. *)
Lemma userRateLimit_length (req_user : option User) (now : Z)
    (requests : Requests) :
  (∀ u, length (stored requests u) ≤ maxRequests) →
  ∀ u, length (stored (userRateLimit maxRequests windowMs req_user now
                         requests).2 u) ≤ maxRequests.
Proof.
  intros Hsmall u. destruct req_user as [user|]; [|apply Hsmall].
  pose proof (userRateLimit_stored user now requests) as Hstep.
  cbv zeta in Hstep. destruct Hstep as [Hfull Hroom].
  destruct (Nat.le_gt_cases maxRequests
              (length (List.filter (recent windowMs now)
                         (stored requests (uid user))))) as [Hcase|Hcase].
  - destruct (Hfull Hcase) as [_ ->]. apply Hsmall.
  - destruct (Hroom Hcase) as (_ & Hown & Hothers).
    destruct (decide (u = uid user)) as [->|Hne].
    + rewrite Hown, length_app. simpl. lia.
    + rewrite Hothers by exact Hne. apply Hsmall.
Qed.

End RateLimitFacts.

(** X21.  The limiter is a sliding window: under a clock that never runs
    backwards, starting from the empty map, no user gets more than
    [maxRequests] requests passed within any interval
    [(T - windowMs, T]], wherever the interval lies. *)
Theorem no_window_holds_more_than_the_limit (maxRequests : nat)
    (windowMs start : Z) (arrivals : list (option User * Z))
    (userId : string) (T : Z) :
  monotone start arrivals →
  length (List.filter (in_window windowMs T)
            (passed_times userId arrivals
               (serve maxRequests windowMs arrivals ∅).1))
  ≤ maxRequests.
Proof.
  intros Hmono.
  destruct (serve_inv maxRequests windowMs arrivals start ∅ (λ _, [])
              (limiter_inv_empty maxRequests windowMs start) Hmono)
    as (_ & _ & Hbound).
  apply (Hbound userId T).
Qed.

Lemma no_window_holds_more_than_the_limit_witness :
  length (List.filter (in_window 60000 61000)
            (passed_times (uid alice) burst (serve 2 60000 burst ∅).1))
  ≤ 2.
Proof.
  apply (no_window_holds_more_than_the_limit 2 60000 0 burst (uid alice) 61000).
  simpl. lia.
Defined.

(** X22.  The exact admission rule: after any requests served under a
    clock that never runs backwards, the next request of a user is answered
    429 exactly when [maxRequests] or more of that user's requests were
    passed later than [now - windowMs]; otherwise it is passed.  Requests
    that were answered 429 do not count. *)
Theorem limited_iff_window_is_full (maxRequests : nat) (windowMs start : Z)
    (arrivals : list (option User * Z)) (user : User) (now : Z) :
  monotone start arrivals →
  (latest start arrivals ≤ now)%Z →
  let served := serve maxRequests windowMs arrivals ∅ in
  let verdict :=
    (userRateLimit maxRequests windowMs (Some user) now served.2).1 in
  (verdict = Limited maxRequests
   ↔ maxRequests
     ≤ length (List.filter (recent windowMs now)
                 (passed_times (uid user) arrivals served.1)))
  ∧ (verdict = Limited maxRequests ∨ verdict = Passed).
Proof.
  intros Hmono Hnow. cbv zeta.
  pose proof (serve_inv maxRequests windowMs arrivals start ∅ (λ _, [])
                (limiter_inv_empty maxRequests windowMs start) Hmono) as Hinv.
  cbv zeta in Hinv.
  destruct (userRateLimit_inv maxRequests windowMs _ now _ _ (Some user)
              Hinv Hnow) as (_ & Hrule & Hcases).
  split; [exact (Hrule user eq_refl) | exact (Hcases user eq_refl)].
Qed.

Lemma limited_iff_window_is_full_witness :
  (userRateLimit 2 60000 (Some alice) 1500
     (serve 2 60000 (take 3 burst) ∅).2).1 = Limited 2.
Proof.
  apply (limited_iff_window_is_full 2 60000 0 (take 3 burst) alice 1500).
  - simpl. lia.
  - simpl. lia.
  - vm_compute. lia.
Defined.

(** X23.  Whatever the clock does, the limiter never keeps more than
    [maxRequests] times for a user: rejected requests are not recorded and
    each passed one prunes the list first. *)
Theorem limiter_memory_is_bounded (maxRequests : nat) (windowMs : Z)
    (arrivals : list (option User * Z)) (userId : string) :
  length (stored (serve maxRequests windowMs arrivals ∅).2 userId)
  ≤ maxRequests.
Proof.
  assert (∀ requests : Requests,
            (∀ u, length (stored requests u) ≤ maxRequests) →
            ∀ u, length (stored (serve maxRequests windowMs arrivals
                                   requests).2 u) ≤ maxRequests) as Hgen.
  { induction arrivals as [|[req_user now] rest IH]; intros requests Hsmall.
    - exact Hsmall.
    - rewrite serve_cons. cbv zeta. cbn [snd]. apply IH.
      by apply userRateLimit_length. }
  apply Hgen. intros u. unfold stored. rewrite lookup_empty. simpl. lia.
Qed.

(** * Properties of the payment and pricing routes *)

Import Billing.

Lemma userCredits_ledger (users : gmap string Account) (userId : string) :
  userCredits (ledger users) userId
  = or_zero (users !! userId ≫= λ a, credits (usage a)).
Proof.
  unfold userCredits, ledger. rewrite lookup_fmap.
  by destruct (users !! userId).
Qed.

(** A successful account update that adds [n] credits. *)
Lemma account_update_credits (users users1 : gmap string Account)
    (update_throws : bool) (userId : string) (f : Account → Account) (n : Z) :
  (∀ a, credits (usage (f a)) = increment n (credits (usage a))) →
  account_update users update_throws userId f = Some users1 →
  (∃ a, users !! userId = Some a ∧ users1 !! userId = Some (f a))
  ∧ (∀ other, other ≠ userId → users1 !! other = users !! other)
  ∧ userCredits (ledger users1) userId
    = (userCredits (ledger users) userId + n)%Z.
Proof.
  intros Hf. unfold account_update.
  destruct (users !! userId) as [a|] eqn:Ha; [|discriminate].
  destruct update_throws; [discriminate|]. intros [= <-]. split_and!.
  - exists a. by rewrite lookup_insert_eq.
  - intros other Hne. by rewrite lookup_insert_ne.
  - rewrite !userCredits_ledger, lookup_insert_eq, Ha. simpl.
    rewrite Hf. reflexivity.
Qed.

(** What the account update of [/verify] does when it goes through. *)
Lemma apply_order_credits (env : PayEnv) (userId : string) (orderData : Order)
    (users users1 : gmap string Account) :
  apply_order env userId orderData users = Some users1 →
  (∀ other, other ≠ userId → users1 !! other = users !! other)
  ∧ userCredits (ledger users1) userId
    = (userCredits (ledger users) userId
       + if credited_type orderData then order_credits orderData else 0)%Z.
Proof.
  unfold apply_order, credited_type.
  destruct (String.eqb (order_type orderData) "credits").
  { intros Hupdate.
    by eapply account_update_credits in Hupdate as (_ & ? & ?). }
  destruct (String.eqb (order_type orderData) "subscription").
  { destruct (order_planId orderData) as [planId|]; [|discriminate].
    intros Hupdate.
    by eapply account_update_credits in Hupdate as (_ & ? & ?). }
  intros [= <-]. split; [done|]. simpl. lia.
Qed.





(** X25.  [/verify] changes nothing, not even on its way to a 500, unless
    the signature is the keyed hash of [order id | payment id] and the
    order exists, belongs to the caller and is not completed; and whatever
    it changes, the accounts of other users and all other orders stay as
    they were. *)
Theorem payment_needs_signature_and_owner (env : PayEnv) (user : User)
    (razorpay_order_id razorpay_payment_id razorpay_signature : option string)
    (s : Store) :
  let result := verify env user razorpay_order_id razorpay_payment_id
                  razorpay_signature s in
  (result.2 ≠ s →
   ∃ orderId orderData,
     razorpay_order_id = Some orderId
     ∧ store_orders s !! orderId = Some orderData
     ∧ order_userId orderData = uid user
     ∧ order_status orderData ≠ "completed"
     ∧ razorpay_signature
       = Some (hmac env (orderId ++ "|"
                         ++ js_string razorpay_payment_id)%string))
  ∧ (∀ other, other ≠ uid user →
       store_users result.2 !! other = store_users s !! other)
  ∧ (∀ other, Some other ≠ razorpay_order_id →
       store_orders result.2 !! other = store_orders s !! other).
Proof.
  cbv zeta. unfold verify.
  destruct (signature_differs _ _) eqn:Hsig; [by split_and!|].
  destruct (truthy razorpay_order_id) as [orderId|] eqn:Hid; [|by split_and!].
  assert (razorpay_order_id = Some orderId) as ->.
  { destruct razorpay_order_id as [[|]|]; try discriminate. exact Hid. }
  destruct (order_get_throws env); [by split_and!|].
  destruct (store_orders s !! orderId) as [orderData|] eqn:Horder;
    [|by split_and!].
  destruct (String.eqb_spec (order_userId orderData) (uid user)) as [Hown|];
    [|by split_and!].
  destruct (String.eqb_spec (order_status orderData) "completed") as [|Hopen];
    [by split_and!|]. cbn [negb].
  assert (razorpay_signature
          = Some (hmac env (orderId ++ "|" ++ js_string razorpay_payment_id)))
    as Hvalid.
  { unfold signature_differs in Hsig.
    destruct razorpay_signature as [signature|]; [|discriminate].
    simpl js_string in Hsig.
    destruct (String.eqb_spec
                (hmac env (orderId ++ "|" ++ js_string razorpay_payment_id))
                signature) as [->|]; [reflexivity | discriminate]. }
  assert (∀ other : string, Some other ≠ Some orderId → other ≠ orderId)
    as Hother by (intros other Hne ->; by apply Hne).
  destruct (apply_order _ _ _ _) as [users1|] eqn:Hupdate; [|by split_and!].
  apply apply_order_credits in Hupdate as [Hothers _].
  split.
  { intros _. by exists orderId, orderData. }
  destruct (order_update_throws env); [by split|].
  destruct (transaction_add_throws env);
    [|destruct (user_get_throws env);
      [|destruct (users1 !! uid user) as [userData|]]]; cbn.
  all: split; [exact Hothers|].
  all: intros other Hne; apply lookup_insert_ne; intros ->; by apply Hne.
Qed.

Lemma payment_needs_signature_and_owner_witness :
  let result := verify pay_env alice (Some "order_1") (Some "pay_1")
                  (Some "forged") (shop 0) in
  store_users result.2 !! "bob" = store_users (shop 0) !! "bob".
Proof.
  apply (proj1 (proj2 (payment_needs_signature_and_owner pay_env alice
                         (Some "order_1") (Some "pay_1") (Some "forged")
                         (shop 0)))).
  vm_compute. discriminate.
Defined.

(** X26.  Round trip of a credit purchase: for 20 to 500 credits the order
    route asks Razorpay for 400 paise per credit and stores the order;
    when the caller then sends the order id with the keyed hash of
    [order id | payment id] and the store calls go through, [/verify]
    answers success, the balance has grown by exactly the credits bought,
    the order is completed, and the preflight of the video route admits
    the user whenever the balance was not negative before. *)
Theorem bought_credits_arrive (env : PayEnv) (razorpay : Z → RazorpayOutcome)
    (stamp : Z) (user : User) (a : Account) (c : Z) (s s1 : Store)
    (orderId currency : string) (amount : Z) (paymentId : option string) :
  store_users s !! uid user = Some a →
  create_order_credits razorpay false stamp user (Some c) s
  = (OrderCreated orderId amount currency c, s1) →
  user_update_throws env = false →
  order_get_throws env = false →
  order_update_throws env = false →
  transaction_add_throws env = false →
  user_get_throws env = false →
  let b := userCredits (ledger (store_users s)) (uid user) in
  let signature := hmac env (orderId ++ "|" ++ js_string paymentId)%string in
  let result := verify env user (Some orderId) paymentId (Some signature) s1 in
  (20 ≤ c ≤ 500)%Z
  ∧ razorpay (400 * c)%Z = RazorpayOk orderId amount currency
  ∧ result.1 = PaymentVerified "credits" c (Some (b + c)%Z)
                 (default "free" (truthy (plan a))) orderId paymentId
  ∧ userCredits (ledger (store_users result.2)) (uid user) = (b + c)%Z
  ∧ (∃ o, store_orders result.2 !! orderId = Some o
          ∧ order_status o = "completed" ∧ order_credits o = c
          ∧ order_amount o = (4 * c)%Z)
  ∧ ((0 ≤ b)%Z →
     ∃ info, checkVideoLimits (ledger (store_users result.2)) false (Some user)
             = Next info).
Proof.
  intros Ha Hcreate Hu Hg Ho Ht Hr. cbv zeta.
  unfold create_order_credits in Hcreate.
  destruct (Z.eqb_spec c 0) as [|Hzero]; [discriminate|].
  destruct (Z.ltb_spec c 20) as [|Hmin]; [discriminate|].
  destruct (Z.ltb_spec 500 c) as [|Hmax]; [discriminate|].
  cbn [orb] in Hcreate.
  replace (c * 4 * 100)%Z with (400 * c)%Z in Hcreate by lia.
  destruct (razorpay (400 * c)%Z) as [id order_amount order_currency|]
    eqn:Hrazorpay; [|discriminate].
  destruct (String.eqb_spec id "") as [|Hid]; [discriminate|].
  cbn [orb] in Hcreate. injection Hcreate as -> -> -> <-.
  assert (truthy (Some orderId) = Some orderId) as Htruthy
    by (destruct orderId; [done | reflexivity]).
  unfold verify, signature_differs. cbn [js_string from_option id].
  rewrite String.eqb_refl, Htruthy, Hg. cbn [negb].
  cbn [set_store_orders store_orders store_users]. rewrite lookup_insert_eq.
  cbn [order_userId order_status order_type]. rewrite String.eqb_refl.
  cbn [negb String.eqb Ascii.eqb Bool.eqb].
  unfold apply_order. cbn [order_type String.eqb Ascii.eqb Bool.eqb].
  unfold account_update. rewrite Ha, Hu, Ho, Ht, Hr.
  cbn [set_store_users store_users]. rewrite lookup_insert_eq.
  cbn [fst snd add_transaction set_store_orders store_users store_orders
       order_credits order_amount].
  assert (userCredits (ledger (store_users s)) (uid user)
          = or_zero (credits (usage a))) as Hb
    by (rewrite userCredits_ledger, Ha; reflexivity).
  assert (userCredits
            (ledger (<[uid user := credit_purchase c (c * 4) (pay_stamp env) a]>
                       (store_users s))) (uid user)
          = (or_zero (credits (usage a)) + c)%Z) as Hafter
    by (rewrite userCredits_ledger, lookup_insert_eq; reflexivity).
  rewrite Hb. split; [lia|]. split_and!.
  - reflexivity.
  - reflexivity.
  - exact Hafter.
  - eexists. rewrite lookup_insert_eq. split; [reflexivity|].
    cbn. split_and!; [reflexivity | reflexivity | lia].
  - intros Hnonneg. unfold checkVideoLimits.
    cbn [store_users set_store_users set_store_orders]. rewrite Hafter.
    unfold CREDITS_PER_VIDEO.
    destruct (Z.ltb_spec (or_zero (credits (usage a)) + c) 20); [lia|].
    by eexists.
Qed.

Lemma bought_credits_arrive_witness :
  let result := verify pay_env alice (Some "order_1") (Some "pay_1")
                  (Some "sig:order_1|pay_1")
                  (create_order_credits razorpay_ok false 1699999000 alice
                     (Some 40%Z) (shop 5)).2 in
  result.1 = PaymentVerified "credits" 40 (Some 45%Z) "free" "order_1"
               (Some "pay_1")
  ∧ userCredits (ledger (store_users result.2)) (uid alice) = 45%Z.
Proof.
  destruct (bought_credits_arrive pay_env razorpay_ok 1699999000 alice
              (paying 5) 40 (shop 5)
              (create_order_credits razorpay_ok false 1699999000 alice
                 (Some 40%Z) (shop 5)).2
              "order_1" "INR" 16000 (Some "pay_1"))
    as (_ & _ & Hanswer & Hbalance & _); try reflexivity.
  split; [exact Hanswer | exact Hbalance].
Defined.

(** X27.  The [possibleVideos] that [GET /credits] reports is the number
    of videos the preflight will admit one after the other: after [n]
    commits that went through, the next request is admitted exactly when
    [n < possibleVideos].  The reported balance is the one the preflight
    reads and [creditsPerVideo] is the price it asks. *)
Theorem possible_videos_are_admitted (users : gmap string Account)
    (user : User) (a : Account)
    (balance used generated perVideo possibleVideos : Z) :
  users !! uid user = Some a →
  credit_balance false user users
  = CreditBalance balance used generated perVideo possibleVideos →
  balance = userCredits (ledger users) (uid user)
  ∧ perVideo = CREDITS_PER_VIDEO
  ∧ ∀ stamps : list Z,
      (∃ info, checkVideoLimits
                 (after_commits (ledger users) (uid user) stamps)
                 false (Some user) = Next info)
      ↔ (Z.of_nat (length stamps) < possibleVideos)%Z.
Proof.
  intros Ha. unfold credit_balance. rewrite Ha. intros [= <- _ _ <- <-].
  assert (userCredits (ledger users) (uid user) = or_zero (credits (usage a)))
    as Hb by (rewrite userCredits_ledger, Ha; reflexivity).
  split_and!; [by rewrite Hb | reflexivity |]. intros stamps.
  unfold checkVideoLimits.
  rewrite (after_commits_credits _ _ stamps (usage a))
    by (unfold ledger; rewrite lookup_fmap, Ha; reflexivity).
  rewrite Hb. unfold CREDITS_PER_VIDEO.
  set (b := or_zero (credits (usage a))). set (n := Z.of_nat (length stamps)).
  pose proof (Z.div_mod b 20 ltac:(lia)) as Hdiv.
  pose proof (Z.mod_pos_bound b 20 ltac:(lia)) as Hmod.
  destruct (Z.ltb_spec (b - 20 * n) 20) as [Hlt|Hge].
  - split; [intros [info [=]] | lia].
  - split; [lia | by eexists].
Qed.

Lemma possible_videos_are_admitted_witness :
  45%Z = userCredits (ledger {[ uid alice := paying 45 ]}) (uid alice)
  ∧ 20%Z = CREDITS_PER_VIDEO
  ∧ ∀ stamps : list Z,
      (∃ info, checkVideoLimits
                 (after_commits (ledger {[ uid alice := paying 45 ]})
                    (uid alice) stamps)
                 false (Some alice) = Next info)
      ↔ (Z.of_nat (length stamps) < 2)%Z.
Proof.
  apply (possible_videos_are_admitted {[ uid alice := paying 45 ]} alice
           (paying 45) 45 0 0 20 2); reflexivity.
Defined.

(** X28.  [POST /add-credits] asks for no proof of payment: for an
    existing account, with the store reachable, any amount of 20 to 500
    credits is added to the balance whatever [orderId], [paymentId] and
    [amount] are, and no order is read or written.  With both ids sent,
    as any strings, the answer is success and one transaction is
    recorded; with one of them missing the answer is 500 and no
    transaction is recorded, and the credits are added all the same.  The
    preflight of the video route then admits the user if the balance was
    not negative. *)
Theorem add_credits_asks_for_no_payment (stamp : Z) (user : User)
    (a : Account) (c : Z) (orderId paymentId : option string)
    (amount : option Z) (s : Store) :
  store_users s !! uid user = Some a →
  (20 ≤ c ≤ 500)%Z →
  let b := userCredits (ledger (store_users s)) (uid user) in
  let result := add_credits false false false stamp user (Some c) orderId
                  paymentId amount s in
  userCredits (ledger (store_users result.2)) (uid user) = (b + c)%Z
  ∧ store_orders result.2 = store_orders s
  ∧ (is_Some orderId → is_Some paymentId →
     result.1 = CreditsAdded c (Some (b + c)%Z) (amount_or amount (c * 4))
                  orderId paymentId
     ∧ ∃ t, store_transactions result.2 = (store_transactions s ++ [t])%list
            ∧ tx_credits t = c ∧ tx_userId t = uid user)
  ∧ (orderId = None ∨ paymentId = None →
     result.1 = Declined 500 "Failed to add credits"
     ∧ store_transactions result.2 = store_transactions s)
  ∧ ((0 ≤ b)%Z →
     ∃ info, checkVideoLimits (ledger (store_users result.2)) false (Some user)
             = Next info).
Proof.
  intros Ha Hc. cbv zeta. unfold add_credits.
  destruct (Z.eqb_spec c 0) as [|_]; [lia|].
  destruct (Z.ltb_spec c 20) as [|_]; [lia|].
  destruct (Z.ltb_spec 500 c) as [|_]; [lia|].
  cbn [orb]. unfold account_update. rewrite Ha.
  assert (userCredits (ledger (store_users s)) (uid user)
          = or_zero (credits (usage a))) as Hb
    by (rewrite userCredits_ledger, Ha; reflexivity).
  assert (userCredits
            (ledger (<[uid user := credit_purchase c
                                     (amount_or amount (c * 4)) stamp a]>
                       (store_users s))) (uid user)
          = (or_zero (credits (usage a)) + c)%Z) as Hafter
    by (rewrite userCredits_ledger, lookup_insert_eq; reflexivity).
  assert (∀ users' : gmap string Account,
            userCredits (ledger users') (uid user)
            = (or_zero (credits (usage a)) + c)%Z →
            (0 ≤ or_zero (credits (usage a)))%Z →
            ∃ info, checkVideoLimits (ledger users') false (Some user)
                    = Next info) as Hadmits.
  { intros users' Hthere Hnonneg. unfold checkVideoLimits. rewrite Hthere.
    unfold CREDITS_PER_VIDEO.
    destruct (Z.ltb_spec (or_zero (credits (usage a)) + c) 20); [lia|].
    by eexists. }
  rewrite Hb.
  destruct orderId as [orderId|], paymentId as [paymentId|];
    cbn [orb negb bool_decide decide_rel is_Some_dec];
    cbn [set_store_users store_users]; rewrite ?lookup_insert_eq;
    cbn [fst snd add_transaction set_store_users store_users store_orders
         store_transactions].
  - split_and!; [exact Hafter | reflexivity | | | by apply Hadmits].
    + intros _ _. split; [reflexivity|]. eexists. by split_and!.
    + by intros [|].
  - split_and!; [exact Hafter | reflexivity | | by intros _ | by apply Hadmits].
    by intros _ [? [=]].
  - split_and!; [exact Hafter | reflexivity | | by intros _ | by apply Hadmits].
    by intros [? [=]].
  - split_and!; [exact Hafter | reflexivity | | by intros _ | by apply Hadmits].
    by intros [? [=]].
Qed.

(** No ids at all: the answer is 500 and Alice has her 500 credits. *)
Lemma add_credits_asks_for_no_payment_witness :
  let result := add_credits false false false 1700000000 alice (Some 500%Z)
                  None None None (shop 0) in
  result.1 = Declined 500 "Failed to add credits"
  ∧ userCredits (ledger (store_users result.2)) (uid alice) = 500%Z.
Proof.
  destruct (add_credits_asks_for_no_payment 1700000000 alice (paying 0) 500
              None None None (shop 0)) as (Hbalance & _ & _ & Hanswer & _).
  - reflexivity.
  - lia.
  - split; [apply Hanswer; by left | exact Hbalance].
Defined.

(** * Properties of authentication and of the asset upload *)

Import Auth Assets.

(** X29.  [verifyToken] gives a new user no credits and takes none from
    a returning one: when it lets a request through, the accounts of all
    other users are as before; an existing account has its [lastLogin]
    stamped and nothing else changed, so every balance is as before; a
    user without a document gets one that has no [credits] field, so the
    preflight of the video route answers 403 with a balance of 0 and
    [GET /credits] reports 0 possible videos.  In every case the user has
    a document afterwards. *)
Theorem first_login_gets_no_credits (verifyIdToken : string → TokenOutcome)
    (get_throws set_throws update_throws : bool) (stamp : Z)
    (token : option string) (users : gmap string Account) (user : User) :
  let result := verifyToken verifyIdToken get_throws set_throws update_throws
                  stamp token users in
  result.1 = NextWith user →
  (∀ other, other ≠ uid user → result.2 !! other = users !! other)
  ∧ (∀ a, users !! uid user = Some a →
       result.2 !! uid user = Some (stamp_login stamp a)
       ∧ lastLogin (profile (stamp_login stamp a)) = Some stamp
       ∧ ledger result.2 = ledger users)
  ∧ (users !! uid user = None →
     (∃ a, result.2 !! uid user = Some a
           ∧ credits (usage a) = None
           ∧ plan a = Some "free"
           ∧ profile_createdAt (profile a) = Some stamp
           ∧ lastLogin (profile a) = Some stamp)
     ∧ checkVideoLimits (ledger result.2) false (Some user)
       = InsufficientCredits 0 20 upgradeOptions
     ∧ credit_balance false user result.2 = CreditBalance 0 0 0 20 0)
  ∧ is_Some (result.2 !! uid user).
Proof.
  cbv zeta. unfold verifyToken.
  destruct (truthy token) as [token'|]; [|discriminate].
  destruct (verifyIdToken token') as [decodedToken|]; [|discriminate].
  destruct get_throws; [discriminate|].
  destruct (users !! uid (token_user decodedToken)) as [a|] eqn:Ha.
  - destruct update_throws; [discriminate|]. intros [= <-]. cbn [fst snd].
    split_and!.
    + intros other Hne. by rewrite lookup_insert_ne.
    + intros a' Ha'. rewrite Ha in Ha'. injection Ha' as <-. split_and!.
      * by rewrite lookup_insert_eq.
      * reflexivity.
      * unfold ledger. rewrite fmap_insert. apply insert_id.
        rewrite lookup_fmap, Ha. reflexivity.
    + rewrite Ha. discriminate.
    + rewrite lookup_insert_eq. by eexists.
  - destruct set_throws; [discriminate|]. intros [= <-]. cbn [fst snd].
    split_and!.
    + intros other Hne. by rewrite lookup_insert_ne.
    + intros a. rewrite Ha. discriminate.
    + intros _. split_and!.
      * eexists. rewrite lookup_insert_eq. by split_and!.
      * unfold checkVideoLimits.
        rewrite userCredits_ledger, lookup_insert_eq. reflexivity.
      * unfold credit_balance. rewrite lookup_insert_eq. reflexivity.
    + rewrite lookup_insert_eq. by eexists.
Qed.

Lemma first_login_gets_no_credits_witness :
  checkVideoLimits
    (ledger (verifyToken (λ _, TokenOk alice_token) false false false
               1700000000 (Some "token") ∅).2)
    false (Some alice)
  = InsufficientCredits 0 20 upgradeOptions.
Proof.
  apply (first_login_gets_no_credits (λ _, TokenOk alice_token) false false
           false 1700000000 (Some "token") ∅ alice); reflexivity.
Defined.

(** X30.  [/api/upload-asset] removes the uploaded file on every path but
    one: after a request that carried a file (under a path that is not
    empty), the file is still on disk exactly when the route answered 503
    for want of a key.  No other file
    is touched, and an asset record is stored only with the success
    answer. *)
Theorem upload_leaves_the_file_only_without_a_key (env : AssetEnv)
    (user : User) (file : UploadedFile) (type : option string)
    (s : AssetState) :
  file_path file ≠ "" →
  let result := upload_asset env user (Some file) type s in
  (file_path file ∈ asset_files result.2
   ↔ file_path file ∈ asset_files s
     ∧ result.1 = AssetRefused 503 "No API keys available")
  ∧ (∀ path, path ≠ file_path file →
       path ∈ asset_files result.2 ↔ path ∈ asset_files s)
  ∧ (assets result.2 = assets s
     ∨ ∃ id doc, assets result.2 = (assets s ++ [(id, doc)])%list
                 ∧ asset_userId doc = uid user
                 ∧ result.1 = AssetUploaded id (heygenAssetId doc)
                                (originalname file) (file_size file)
                                (default "image" type)).
Proof.
  intros Hpath. cbv zeta. unfold upload_asset.
  destruct (String.eqb_spec (file_path file) "") as [|_]; [done|].
  destruct (getNextHeyGenKey _ _) as [apiKey m'].
  assert (∀ e, asset_catch e ≠ AssetRefused 503 "No API keys available")
    as Hcatch.
  { intros e. unfold asset_catch.
    by destruct (error_response e) as [[code data]|]. }
  destruct (truthy apiKey) as [key|].
  2: { cbn [fst snd asset_files assets]. split_and!; [|done|by left].
       split; [by split | by intros [? _]]. }
  assert (∀ (answer : AssetAnswer),
            answer ≠ AssetRefused 503 "No API keys available" →
            (file_path file ∈ asset_files s ∖ {[file_path file]}
             ↔ file_path file ∈ asset_files s ∧ answer
               = AssetRefused 503 "No API keys available")
            ∧ (∀ path, path ≠ file_path file →
                 path ∈ asset_files s ∖ {[file_path file]}
                 ↔ path ∈ asset_files s)) as Hremoved.
  { intros answer Hanswer. split.
    - rewrite elem_of_difference, elem_of_singleton. split; [tauto|].
      by intros [_ ?].
    - intros path Hne. rewrite elem_of_difference, elem_of_singleton. tauto. }
  destruct (heygen_upload env) as [asset_id|e].
  2: { cbn [fst snd asset_files assets].
       destruct (Hremoved (asset_catch e) (Hcatch e)). split_and!; [done|done|].
       by left. }
  destruct (assets_add env) as [id|e]; cbn [fst snd asset_files assets].
  - destruct (Hremoved (AssetUploaded id asset_id (originalname file)
                          (file_size file) (default "image" type)))
      as [? ?]; [discriminate|].
    split_and!; [done|done|]. right. eexists id, _.
    split; [reflexivity|]. split; reflexivity.
  - destruct (Hremoved (asset_catch e) (Hcatch e)). split_and!; [done|done|].
    by left.
Qed.

Lemma upload_leaves_the_file_only_without_a_key_witness :
  "uploads/3f2a"
  ∈ asset_files (upload_asset asset_env_no_keys alice (Some portrait_file)
                   None asset_state).2.
Proof.
  apply (proj1 (upload_leaves_the_file_only_without_a_key asset_env_no_keys
                  alice portrait_file None asset_state ltac:(discriminate))).
  split; [|reflexivity]. vm_compute. reflexivity.
Defined.
